(** * FrameBuffer: a shared-memory ring of image frames (lib/c/buffer.c)

    A shallow embedding of [buffer.h] / [buffer.c].  The shared region
    ([buffer_t]) is a record; the operations that run on it are functions
    that pass the region explicitly.  Machine integers are [Z] with the
    wrap-around of their C type written out; byte arrays are
    [list Byte.byte]; the operating system (process table, the names under
    /dev/shm, the mappings of the calling process) is a record [world].

    Conventions
    - [uint64_t] and [size_t] are 64-bit (LP64); [uint32_t] and [int] 32-bit.
    - An operation that dereferences a null handle, touches memory outside
      an array, or uses an unmapped region is undefined in C; the embedding
      returns [Fault] there.
    - A slot's [memcpy] and metadata update happen under the slot's write
      lock and a reader copies under its read lock, so a call of
      [write_frame] changes the region in one step.
    - [pthread_cond_wait] hands control to the other processes.  The
      embedding takes the state of the region at each return of
      [pthread_cond_wait] from a list [wakes]; when the list is exhausted
      the call never returns ([Blocked]).

    Contents: the constants, types and functions of the source; the
    vocabulary of the properties (publications, the ring invariant); a
    small example system; then the properties, grouped by function. *)

From stdpp Require Import base list strings gmap.
From Stdlib Require Import ZArith Lia Ascii.
From Stdlib.Strings Require Byte.

Open Scope Z_scope.

(* ================================================================== *)
(** ** Constants of buffer.h *)

Definition BUFFER_COUNT : Z := 3.
Definition BLOCK_DIR : string := "/dev/shm/buffer-".

Definition SUCCESS : Z := 0.
Definition FRAME_SIZE_MISMATCH : Z := 1.
Definition BLOCK_NOT_ACTIVE : Z := 2.
Definition NO_NEW_FRAME : Z := 3.

(* ================================================================== *)
(** ** Machine arithmetic *)

Definition wrap64 (z : Z) : Z := z mod 2 ^ 64.
Definition wrap32 (z : Z) : Z := z mod 2 ^ 32.

(** Conversion of an unsigned value to [int] (two's complement). *)
Definition to_int (z : Z) : Z :=
  let r := wrap32 z in if r <? 2 ^ 31 then r else r - 2 ^ 32.

(** The [max] macro on two [uint64_t] values: [_a > _b ? _a : _b]. *)
Definition max (a b : Z) : Z := if b <? a then a else b.

(* ================================================================== *)
(** ** Results of a call *)

Inductive fault : Set :=
  | NullDeref      (* a null [block_t*] was dereferenced *)
  | Unmapped       (* the handle's region is not mapped *)
  | OutOfBounds.   (* an array was accessed outside its extent *)

Inductive outcome (A : Type) : Type :=
  | Ret (a : A)          (* the call returns *)
  | Blocked              (* the call waits forever *)
  | Fault (e : fault).   (* undefined behaviour *)

Arguments Ret {A} a.
Arguments Blocked {A}.
Arguments Fault {A} e.

(* ================================================================== *)
(** ** Data model *)

(** State of a [pthread_rwlock_t]. *)
Inductive rwlock_t : Set :=
  | Unlocked
  | RdLocked (readers : positive)
  | WrLocked.

(** [pthread_rwlock_wrlock]: granted only on a free lock; otherwise the
    caller waits ([None]). *)
Definition pthread_rwlock_wrlock (l : rwlock_t) : option rwlock_t :=
  match l with
  | Unlocked => Some WrLocked
  | _ => None
  end.

(** [pthread_rwlock_tryrdlock]: [Some l'] when it returns 0. *)
Definition pthread_rwlock_tryrdlock (l : rwlock_t) : option rwlock_t :=
  match l with
  | Unlocked => Some (RdLocked 1)
  | RdLocked n => Some (RdLocked (Pos.succ n))
  | WrLocked => None
  end.

Definition pthread_rwlock_unlock (l : rwlock_t) : rwlock_t :=
  match l with
  | RdLocked n => if (n =? 1)%positive then Unlocked else RdLocked (Pos.pred n)
  | _ => Unlocked
  end.

Record frame_metadata_t : Type := mk_metadata {
  frame_uid : Z;
  acquisition_time : Z;
  rwlock : rwlock_t
}.

(** [struct buffer].  [cond] and [cond_mutex] carry no data; waiting on
    them is modelled by the [wakes] argument of [read_frame]. *)
Record buffer_t : Type := mk_buffer {
  frame_cnt : Z;
  width : Z;
  height : Z;
  depth : Z;
  is_alive : bool;
  owner : Z;
  metadata : list frame_metadata_t;
  images : list Byte.byte
}.

(** [struct frame] of buffer.h (the consumer's frame). *)
Record frame_t : Type := mk_frame {
  f_width : Z;
  f_height : Z;
  f_depth : Z;
  f_acquisition_time : Z;
  f_frame_uid : Z;
  f_data : list Byte.byte
}.

(** [struct block]: [buffer] is the address of the mapping.  A
    [block_t*] is an [option block_t]; [None] is the null pointer. *)
Record block_t : Type := mk_block {
  filename : string;
  buffer : nat
}.

(* ================================================================== *)
(** ** Size helpers *)

Definition buffer_image_size (b : buffer_t) : Z :=
  wrap64 (wrap64 (width b * height b) * depth b).

Definition frame_image_size (f : frame_t) : Z :=
  wrap64 (wrap64 (f_width f * f_height f) * f_depth f).

(** [sizeof_buffer_t] is [sizeof(buffer_t)], fixed by the platform ABI. *)
Definition buffer_size (sizeof_buffer_t weight height depth : Z) : Z :=
  wrap64 (sizeof_buffer_t +
          wrap64 (wrap64 (wrap64 (weight * height) * depth) * BUFFER_COUNT)).

(* ================================================================== *)
(** ** Memory primitives *)

(** [memcpy(&dst[off], src, n)]: defined only when both ranges exist. *)
Definition memcpy_to (dst : list Byte.byte) (off : nat)
    (src : list Byte.byte) (n : nat) : option (list Byte.byte) :=
  if decide (off + n <= length dst ∧ n <= length src)%nat
  then Some (take off dst ++ take n src ++ drop (off + n) dst)
  else None.

(** The [n] bytes at [&src[off]], when they exist. *)
Definition bytes_at (src : list Byte.byte) (off n : nat)
    : option (list Byte.byte) :=
  if decide (off + n <= length src)%nat
  then Some (take n (drop off src))
  else None.

(** [realloc(data, n)]: the old contents up to [n] bytes; bytes beyond the
    old size are indeterminate and given by [uninit]. *)
Definition realloc (uninit : nat -> Byte.byte) (data : list Byte.byte)
    (n : nat) : list Byte.byte :=
  take n data ++ map uninit (seq (length data) (n - length data)).

(* ================================================================== *)
(** ** write_frame (buffer.c 57-96) *)

Definition set_slot (b : buffer_t) (cnt : Z) (slot : nat)
    (md : frame_metadata_t) (imgs : list Byte.byte) : buffer_t :=
  {| frame_cnt := cnt;
     width := width b; height := height b; depth := depth b;
     is_alive := is_alive b; owner := owner b;
     metadata := <[slot := md]> (metadata b);
     images := imgs |}.

(** The slot chosen on line 71, a [uint32_t]. *)
Definition buffer_to_write_to (b : buffer_t) : Z :=
  wrap32 (wrap64 (frame_cnt b + 1) mod BUFFER_COUNT).

(** [write_frame block width height depth acquisition_time data], with
    [b] the region [*block->buffer].  [pthread_rwlock_wrlock] on a slot
    that is held makes the call wait: the result is [Blocked], and the call
    goes on as from the same region with the lock free.  The broadcast on
    lines 91-93 changes no field of the region; what it does to waiting
    readers is in the [wakes] of their [read_frame]. *)
Definition write_frame (b : buffer_t) (width' height' depth' : Z)
    (acquisition_time' : Z) (data : list Byte.byte)
    : outcome (Z * buffer_t) :=
  if negb (width b =? width') || negb (height b =? height')
     || negb (depth b =? depth')
  then Ret (FRAME_SIZE_MISMATCH, b)
  else if negb (is_alive b) then Ret (BLOCK_NOT_ACTIVE, b)
  else
    let slot := buffer_to_write_to b in
    match metadata b !! Z.to_nat slot with
    | None => Fault OutOfBounds
    | Some md =>
      match pthread_rwlock_wrlock (rwlock md) with
      | None => Blocked
      | Some held =>
        let image_size := buffer_image_size b in
        match memcpy_to (images b) (Z.to_nat (wrap64 (image_size * slot)))
                        data (Z.to_nat (wrap64 (image_size * 1))) with
        | None => Fault OutOfBounds
        | Some imgs =>
          let cnt := wrap64 (frame_cnt b + 1) in
          Ret (SUCCESS,
               set_slot b cnt (Z.to_nat slot)
                 {| frame_uid := cnt;
                    acquisition_time := acquisition_time';
                    rwlock := pthread_rwlock_unlock held |}
                 imgs)
        end
      end
    end.

(* ================================================================== *)
(** ** read_frame (buffer.c 98-172) *)

(** Lines 124-130. *)
Definition target_frame_uid (newest_buffer last_buffer : Z) : Z :=
  if newest_buffer <? BUFFER_COUNT
  then wrap64 (last_buffer + 1)
  else max (wrap64 (last_buffer + 1))
           (wrap64 (wrap64 (newest_buffer - BUFFER_COUNT) + 1)).

(** Line 133. *)
Definition target_buffer (newest_buffer last_buffer : Z) : Z :=
  to_int (target_frame_uid newest_buffer last_buffer mod BUFFER_COUNT).

(** Lines 109-113: the frame after its buffer is resized and the region's
    geometry is copied in. *)
Definition adopt_geometry (uninit : nat -> Byte.byte) (b : buffer_t)
    (f : frame_t) : frame_t :=
  {| f_width := width b; f_height := height b; f_depth := depth b;
     f_acquisition_time := f_acquisition_time f;
     f_frame_uid := f_frame_uid f;
     f_data := realloc uninit (f_data f) (Z.to_nat (buffer_image_size b)) |}.

(** Lines 153-159.  [b] is the region as the caller sees it now; [wakes]
    are the regions seen at later returns of [pthread_cond_wait].
    [Ret (inr (b', md))]: the read lock on slot [target] was taken in
    state [b'], whose metadata entry is [md].  [Ret (inl code)]: the call
    returns [code] without the lock. *)
Fixpoint acquire_read_lock (target : nat) (b : buffer_t)
    (wakes : list buffer_t)
    : outcome (Z + buffer_t * frame_metadata_t) :=
  match metadata b !! target with
  | None => Fault OutOfBounds
  | Some md =>
    match pthread_rwlock_tryrdlock (rwlock md) with
    | Some _ => Ret (inr (b, md))
    | None =>
      match wakes with
      | [] => Blocked
      | b' :: wakes' =>
        if negb (is_alive b') then Ret (inl BLOCK_NOT_ACTIVE)
        else acquire_read_lock target b' wakes'
      end
    end
  end.

(** Lines 116-159: everything between the geometry copy and the release
    of [cond_mutex]. *)
Definition admission (b : buffer_t) (last_buffer : Z) (block_thread : bool)
    (wakes : list buffer_t)
    : outcome (Z + buffer_t * frame_metadata_t) :=
  if negb (is_alive b) then Ret (inl BLOCK_NOT_ACTIVE)
  else
    let newest_buffer := frame_cnt b in
    let target := Z.to_nat (target_buffer newest_buffer last_buffer) in
    if last_buffer =? newest_buffer then
      if block_thread then
        match wakes with
        | [] => Blocked
        | b' :: wakes' =>
          if negb (is_alive b') then Ret (inl BLOCK_NOT_ACTIVE)
          else acquire_read_lock target b' wakes'
        end
      else Ret (inl NO_NEW_FRAME)
    else acquire_read_lock target b wakes.

(** Lines 164-171, with the read lock held on slot [target] of [b]. *)
Definition copy_out (b : buffer_t) (md : frame_metadata_t) (target : Z)
    (f : frame_t) : outcome (Z * frame_t) :=
  let image_size := frame_image_size f in
  match bytes_at (images b) (Z.to_nat (wrap64 (image_size * target)))
                 (Z.to_nat (wrap64 (image_size * 1))) with
  | None => Fault OutOfBounds
  | Some bytes =>
    match memcpy_to (f_data f) 0 bytes (Z.to_nat (wrap64 (image_size * 1))) with
    | None => Fault OutOfBounds
    | Some data =>
      Ret (SUCCESS,
           {| f_width := f_width f; f_height := f_height f;
              f_depth := f_depth f;
              f_acquisition_time := acquisition_time md;
              f_frame_uid := frame_uid md;
              f_data := data |})
    end
  end.

Definition read_frame (uninit : nat -> Byte.byte) (b : buffer_t)
    (frame : frame_t) (block_thread : bool) (wakes : list buffer_t)
    : outcome (Z * frame_t) :=
  let frame := adopt_geometry uninit b frame in
  match admission b (f_frame_uid frame) block_thread wakes with
  | Ret (inl code) => Ret (code, frame)
  | Ret (inr (b', md)) =>
    copy_out b' md (target_buffer (frame_cnt b) (f_frame_uid frame)) frame
  | Blocked => Blocked
  | Fault e => Fault e
  end.

(** [create_frame]: the geometry, the time stamp and the 8 data bytes are
    uninitialised; the caller of the model supplies them. *)
Definition create_frame (w h d t : Z) (garbage : nat -> Byte.byte) : frame_t :=
  {| f_width := w; f_height := h; f_depth := d;
     f_acquisition_time := t;
     f_frame_uid := 0;
     f_data := map garbage (seq 0 8) |}.

(* ================================================================== *)
(** ** The operating system as seen by the calling process *)

(** What the kernel answers to the three calls of [create_block] whose
    result depends on more than the names in use: [open] of a new name
    with O_CREAT (a name too long, no permission, no descriptor left),
    [ftruncate] to a length (a length beyond [off_t], no space left) and
    [mmap] of a length (no address space of that size). *)
Record syscalls : Type := mk_syscalls {
  open_fails : string -> bool;      (* open(name, O_RDWR | O_CREAT) == -1 *)
  ftruncate_fails : Z -> bool;      (* ftruncate(fd, length) == -1 *)
  mmap_fails : Z -> bool            (* mmap(NULL, length, ...) == MAP_FAILED *)
}.

Record world : Type := mk_world {
  w_pid : Z;                        (* getpid() *)
  w_procs : gset Z;                 (* processes that a null signal reaches *)
  w_files : gmap string nat;        (* names under /dev/shm -> backing object *)
  w_objects : gmap nat buffer_t;    (* contents of the backing objects *)
  w_mapped : gmap nat nat;          (* addresses mapped by the caller -> object *)
  w_next : nat;                     (* next unused object number and address *)
  w_stderr : list string;           (* diagnostics printed so far *)
  w_sys : syscalls                  (* the kernel's answers *)
}.

Definition fprintf_stderr (w : world) (msg : string) : world :=
  {| w_pid := w_pid w; w_procs := w_procs w; w_files := w_files w;
     w_objects := w_objects w; w_mapped := w_mapped w; w_next := w_next w;
     w_stderr := w_stderr w ++ [msg]; w_sys := w_sys w |}.

Definition set_files (w : world) (fs : gmap string nat) : world :=
  {| w_pid := w_pid w; w_procs := w_procs w; w_files := fs;
     w_objects := w_objects w; w_mapped := w_mapped w; w_next := w_next w;
     w_stderr := w_stderr w; w_sys := w_sys w |}.

Definition set_objects (w : world) (os : gmap nat buffer_t) : world :=
  {| w_pid := w_pid w; w_procs := w_procs w; w_files := w_files w;
     w_objects := os; w_mapped := w_mapped w; w_next := w_next w;
     w_stderr := w_stderr w; w_sys := w_sys w |}.

Definition set_mapped (w : world) (ms : gmap nat nat) (next : nat) : world :=
  {| w_pid := w_pid w; w_procs := w_procs w; w_files := w_files w;
     w_objects := w_objects w; w_mapped := ms; w_next := next;
     w_stderr := w_stderr w; w_sys := w_sys w |}.

(** [kill(p, 0)]: 0 when the null signal can be delivered, -1 otherwise. *)
Definition kill (w : world) (p : Z) : Z :=
  if decide (p ∈ w_procs w) then 0 else -1.

(** The region behind a handle: [block->buffer] followed into memory. *)
Definition deref (w : world) (block : option block_t)
    : outcome (nat * buffer_t) :=
  match block with
  | None => Fault NullDeref
  | Some blk =>
    match w_mapped w !! buffer blk with
    | None => Fault Unmapped
    | Some obj =>
      match w_objects w !! obj with
      | None => Fault Unmapped
      | Some b => Ret (obj, b)
      end
    end
  end.

(* ================================================================== *)
(** ** Names (buffer.c 186-199) *)

(** [strpbrk(direction, "/") != NULL]. *)
Fixpoint contains_slash (direction : string) : bool :=
  match direction with
  | EmptyString => false
  | String c rest => Ascii.eqb c "/"%char || contains_slash rest
  end.

Definition file_address_from_direction (w : world) (direction : string)
    : world * option string :=
  if contains_slash direction
  then (fprintf_stderr w "Direction name contains a / which is forbidden!",
        None)
  else (w, Some (BLOCK_DIR +:+ direction)).

(* ================================================================== *)
(** ** create_block and open_block (buffer.c 209-288) *)

(** The region after lines 236-261: the file is zero-filled by
    [ftruncate], so slot metadata and image bytes start at zero;
    [image_bytes] is the extent of the flexible array [images]. *)
Definition fresh_buffer (owner_pid width height depth : Z)
    (image_bytes : nat) : buffer_t :=
  {| frame_cnt := 0;
     width := width; height := height; depth := depth;
     is_alive := true; owner := owner_pid;
     metadata := replicate (Z.to_nat BUFFER_COUNT)
                   {| frame_uid := 0; acquisition_time := 0;
                      rwlock := Unlocked |};
     images := replicate image_bytes Byte.x00 |}.

(** The region that [create_block] maps for process [pid]: a file of
    [bytes_needed] bytes, of which the first [sizeof_buffer_t] are the
    header and the rest is [images]. *)
Definition created (sizeof_buffer_t pid width height depth : Z) : buffer_t :=
  let bytes_needed := buffer_size sizeof_buffer_t width height depth in
  fresh_buffer pid width height depth
    (Z.to_nat (bytes_needed - sizeof_buffer_t)).

Definition new_block (filename : string) (buffer : nat) : option block_t :=
  Some {| filename := filename; buffer := buffer |}.

(** Lines 209-264.  [access] finds the name or not; [open], [ftruncate]
    and [mmap] answer as the kernel decides.  A failed [open] leaves
    nothing behind; a failed [ftruncate] leaves the empty file that [open]
    has just created; the result of [mmap] is not tested, so line 239
    writes through MAP_FAILED when it failed. *)
Definition create_block (sizeof_buffer_t : Z) (w : world)
    (direction : string) (width height depth : Z)
    : outcome (world * option block_t) :=
  match file_address_from_direction w direction with
  | (w, None) => Ret (w, None)
  | (w, Some file_address) =>
    if decide (is_Some (w_files w !! file_address))
    then Ret (fprintf_stderr w "Buffer name already exists.", None)
    else
      let bytes_needed := buffer_size sizeof_buffer_t width height depth in
      if open_fails (w_sys w) file_address
      then Ret (fprintf_stderr w "Failed to open file.", None)
      else
        let obj := w_next w in
        let names := <[file_address := obj]> (w_files w) in
        if ftruncate_fails (w_sys w) bytes_needed
        then Ret (fprintf_stderr
                    (set_mapped (set_files w names) (w_mapped w) (S obj))
                    "Failed to truncate the file to the desired length.",
                  None)
        else if mmap_fails (w_sys w) bytes_needed then Fault Unmapped
        else
          let b := created sizeof_buffer_t (w_pid w) width height depth in
          let w := set_files w names in
          let w := set_objects w (<[obj := b]> (w_objects w)) in
          let w := set_mapped w (<[obj := obj]> (w_mapped w)) (S obj) in
          Ret (w, new_block file_address obj)
  end.

Definition open_block (w : world) (direction : string)
    : world * option block_t :=
  match file_address_from_direction w direction with
  | (w, None) => (w, None)
  | (w, Some file_address) =>
    match w_files w !! file_address with
    | None =>
      (fprintf_stderr w "Failed to create block access point because file dne.",
       None)
    | Some obj =>
      let addr := w_next w in
      let w := set_mapped w (<[addr := obj]> (w_mapped w)) (S addr) in
      (w, new_block file_address addr)
    end
  end.

(* ================================================================== *)
(** ** Inspection, close and destroy (buffer.c 290-379) *)

Definition block_is_poisoned (w : world) (block : option block_t)
    : outcome (bool * world) :=
  match deref w block with
  | Ret (_, b) =>
    let owner_is_alive := kill w (owner b) =? 0 in
    let is_poisoned := negb owner_is_alive && is_alive b in
    Ret (is_poisoned,
         if is_poisoned then fprintf_stderr w "buffer is poisoned." else w)
  | Blocked => Blocked
  | Fault e => Fault e
  end.

Definition block_is_alive (w : world) (block : option block_t)
    : outcome bool :=
  match deref w block with
  | Ret (_, b) => Ret (is_alive b)
  | Blocked => Blocked
  | Fault e => Fault e
  end.

(** [close_block]: the handle's memory is freed; the world keeps no
    record of handle memory, so only the diagnostic is visible. *)
Definition close_block (w : world) (block : option block_t)
    : outcome world :=
  match deref w block with
  | Ret (_, b) =>
    if owner b =? w_pid w
    then Ret (fprintf_stderr w
                "The current process owns the unlying buffer. please call destroy_block instead.")
    else Ret w
  | Blocked => Blocked
  | Fault e => Fault e
  end.

Definition cstr_block_is_poisoned (w : world) (direction : string)
    : outcome (bool * world) :=
  let (w, block) := open_block w direction in
  match block_is_poisoned w block with
  | Ret (result, w) =>
    match close_block w block with
    | Ret w => Ret (result, w)
    | Blocked => Blocked
    | Fault e => Fault e
    end
  | Blocked => Blocked
  | Fault e => Fault e
  end.

Definition cstr_block_is_alive (w : world) (direction : string)
    : outcome (bool * world) :=
  let (w, block) := open_block w direction in
  match block_is_alive w block with
  | Ret result =>
    match close_block w block with
    | Ret w => Ret (result, w)
    | Blocked => Blocked
    | Fault e => Fault e
    end
  | Blocked => Blocked
  | Fault e => Fault e
  end.

Definition archived : string :=
  "-archived-random-name-so-no-direction-can-ever-be-like-this".

Definition kill_buffer (b : buffer_t) : buffer_t :=
  {| frame_cnt := frame_cnt b;
     width := width b; height := height b; depth := depth b;
     is_alive := false; owner := owner b;
     metadata := metadata b; images := images b |}.

(** [rename(old, new)]: 0 when [old] names a file. *)
Definition rename (w : world) (old new : string) : world * Z :=
  match w_files w !! old with
  | None => (w, -1)
  | Some obj => (set_files w (<[new := obj]> (delete old (w_files w))), 0)
  end.

Definition destroy_block (w : world) (block : option block_t)
    : outcome world :=
  match block, deref w block with
  | Some blk, Ret (obj, b) =>
    let is_owner := w_pid w =? owner b in
    match block_is_poisoned w block with
    | Ret (is_poisoned, w) =>
      let w :=
        if negb is_owner && negb is_poisoned
        then fprintf_stderr w "Current process cannot free unpoisoned block."
        else w in
      (* lines 350-351 *)
      let w := set_objects w (<[obj := kill_buffer b]> (w_objects w)) in
      (* lines 357-367 *)
      let new_filename := filename blk +:+ archived in
      let (w, failed) := rename w (filename blk) new_filename in
      let w :=
        if negb (failed =? 0)
        then fprintf_stderr w
               "file could not be archived during destruction process. Segfaults may occur!"
        else w in
      (* lines 373-375 *)
      let w := set_mapped w (delete (buffer blk) (w_mapped w)) (w_next w) in
      let w := set_files w (delete new_filename (w_files w)) in
      Ret w
    | Blocked => Blocked
    | Fault e => Fault e
    end
  | Some _, Blocked => Blocked
  | Some _, Fault e => Fault e
  | None, _ => Fault NullDeref
  end.

(* ================================================================== *)
(** ** Vocabulary of the properties *)

(** Slot [i] of the ring as the code addresses it: the
    [buffer_image_size] bytes at [&images[image_size * i]]. *)
Definition slot_image (b : buffer_t) (i : Z) : option (list Byte.byte) :=
  bytes_at (images b) (Z.to_nat (wrap64 (buffer_image_size b * i)))
           (Z.to_nat (buffer_image_size b)).

(** The region has [BUFFER_COUNT] metadata entries and [BUFFER_COUNT]
    image slots of [width * height * depth] bytes each. *)
Definition well_formed (b : buffer_t) : Prop :=
  length (metadata b) = Z.to_nat BUFFER_COUNT ∧
  length (images b) = Z.to_nat (BUFFER_COUNT * buffer_image_size b).

Definition same_geometry (b b' : buffer_t) : Prop :=
  width b' = width b ∧ height b' = height b ∧ depth b' = depth b.

(** One call of [write_frame] by the producer. *)
Record write_call : Type := mk_call {
  c_width : Z;
  c_height : Z;
  c_depth : Z;
  c_time : Z;
  c_data : list Byte.byte
}.

(** What a successful call published. *)
Record publication : Type := mk_publication {
  pub_uid : Z;
  pub_time : Z;
  pub_payload : list Byte.byte
}.

(** Runs the producer's calls in order from region [b].  [pubs] lists the
    publications so far, most recent first.  [None] when a call does not
    return. *)
Fixpoint run_calls (b : buffer_t) (pubs : list publication)
    (calls : list write_call) : option (buffer_t * list publication) :=
  match calls with
  | [] => Some (b, pubs)
  | c :: calls' =>
    match write_frame b (c_width c) (c_height c) (c_depth c) (c_time c)
                      (c_data c) with
    | Ret (code, b') =>
      let pubs' :=
        if code =? SUCCESS
        then {| pub_uid := frame_cnt b'; pub_time := c_time c;
                pub_payload :=
                  take (Z.to_nat (buffer_image_size b)) (c_data c) |} :: pubs
        else pubs in
      run_calls b' pubs' calls'
    | _ => None
    end
  end.

(** The most recent publication stamped with uid [u]. *)
Definition published_as (u : Z) (pubs : list publication)
    : option publication :=
  find (fun p => pub_uid p =? u) pubs.

(** No lock of the region is held. *)
Definition quiescent (b : buffer_t) : Prop :=
  Forall (fun md => rwlock md = Unlocked) (metadata b).

(** The publication [p] went to slot [slot]. *)
Definition in_slot (slot : Z) (p : publication) : bool :=
  pub_uid p mod BUFFER_COUNT =? slot.

(** Slot [slot], with metadata [md], holds the most recent publication
    that went to it, or has never been written. *)
Definition slot_holds (b : buffer_t) (pubs : list publication) (slot : Z)
    (md : frame_metadata_t) : Prop :=
  match find (in_slot slot) pubs with
  | Some p =>
    frame_uid md = pub_uid p /\ acquisition_time md = pub_time p /\
    slot_image b slot = Some (pub_payload p)
  | None => frame_uid md = 0
  end.

(** What links a region to the publications made on it. *)
Record ring_invariant (b : buffer_t) (pubs : list publication) : Prop := {
  ri_count : frame_cnt b = wrap64 (Z.of_nat (length pubs));
  ri_uids : forall (i : nat) (p : publication),
      pubs !! i = Some p ->
      pub_uid p = wrap64 (Z.of_nat (length pubs - i));
  ri_slots : forall (slot : Z) (md : frame_metadata_t),
      0 <= slot < BUFFER_COUNT ->
      metadata b !! Z.to_nat slot = Some md ->
      slot_holds b pubs slot md;
  ri_room : pubs <> [] ->
      2 * buffer_image_size b <= Z.of_nat (length (images b));
  ri_fits : Z.of_nat (length (images b)) < 2 ^ 64
}.

(** The region while other threads hold slot locks: slot [i] has its
    lock in state [locks i], every other field is that of [b].  A reader
    holds a read lock between lines 153 and 170, the producer the write
    lock between lines 75 and 86. *)
Definition with_locks (locks : nat -> rwlock_t) (b : buffer_t) : buffer_t :=
  {| frame_cnt := frame_cnt b;
     width := width b; height := height b; depth := depth b;
     is_alive := is_alive b; owner := owner b;
     metadata :=
       imap (fun i md =>
               {| frame_uid := frame_uid md;
                  acquisition_time := acquisition_time md;
                  rwlock := locks i |})
            (metadata b);
     images := images b |}.

(** What happens to a region between two reads: the producer completes a
    call of [write_frame], or other threads take and release slot locks. *)
Inductive event : Type :=
  | Publish (c : write_call)
  | Locks (locks : nat -> rwlock_t).

(** [run_calls] with the lock traffic of other threads in between.  [None]
    when a call of the producer does not return. *)
Fixpoint run_events (b : buffer_t) (pubs : list publication)
    (events : list event) : option (buffer_t * list publication) :=
  match events with
  | [] => Some (b, pubs)
  | Publish c :: events' =>
    match write_frame b (c_width c) (c_height c) (c_depth c) (c_time c)
                      (c_data c) with
    | Ret (code, b') =>
      let pubs' :=
        if code =? SUCCESS
        then {| pub_uid := frame_cnt b'; pub_time := c_time c;
                pub_payload :=
                  take (Z.to_nat (buffer_image_size b)) (c_data c) |} :: pubs
        else pubs in
      run_events b' pubs' events'
    | _ => None
    end
  | Locks locks :: events' => run_events (with_locks locks b) pubs events'
  end.

(* ================================================================== *)
(** ** A small system used to exercise the properties *)

(** Process 100 creates the region "cam" for 2 x 2 x 1 images; process
    200 is another live process. *)
Definition sizeof_example : Z := 408.

(** A 64-bit Linux: a file name has at most 255 characters after
    "/dev/shm/", [off_t] ends below 2^63, a mapping has at least one byte
    and a process has 2^47 bytes of address space. *)
Definition linux : syscalls :=
  {| open_fails := fun name => (264 <? String.length name)%nat;
     ftruncate_fails := fun n => 2 ^ 63 <=? n;
     mmap_fails := fun n => (n =? 0) || (2 ^ 47 <=? n) |}.

Definition boot : world :=
  {| w_pid := 100; w_procs := {[100; 200]};
     w_files := ∅; w_objects := ∅; w_mapped := ∅; w_next := 0%nat;
     w_stderr := []; w_sys := linux |}.

Definition cam : buffer_t := fresh_buffer 100 2 2 1 12.

Definition uninit_aa : nat -> Byte.byte := fun _ => Byte.xaa.

Definition new_frame : frame_t := create_frame 7 7 7 7 uninit_aa.

Definition solid (x : Byte.byte) : list Byte.byte := [x; x; x; x].

Definition shot (t : Z) (x : Byte.byte) : write_call :=
  {| c_width := 2; c_height := 2; c_depth := 1; c_time := t;
     c_data := solid x |}.

(** The machine as process [p] finds it when it starts: nothing mapped,
    nothing printed. *)
Definition as_process (p : Z) (w : world) : world :=
  {| w_pid := p; w_procs := w_procs w; w_files := w_files w;
     w_objects := w_objects w; w_mapped := ∅; w_next := w_next w;
     w_stderr := []; w_sys := w_sys w |}.

(** Process [p] has exited. *)
Definition without_process (p : Z) (w : world) : world :=
  {| w_pid := w_pid w; w_procs := w_procs w ∖ {[p]}; w_files := w_files w;
     w_objects := w_objects w; w_mapped := w_mapped w; w_next := w_next w;
     w_stderr := w_stderr w; w_sys := w_sys w |}.

(** The world and the handle that a call left, for the examples; a call
    that does not return leaves the world [w] and no handle. *)
Definition world_after (w : world) (o : outcome (world * option block_t))
    : world :=
  match o with
  | Ret (w', _) => w'
  | _ => w
  end.

Definition handle_after (o : outcome (world * option block_t))
    : option block_t :=
  match o with
  | Ret (_, h) => h
  | _ => None
  end.

Definition studio : world :=
  world_after boot (create_block sizeof_example boot "cam" 2 2 1).

Definition visitor : world := (open_block (as_process 200 studio) "cam").1.

Definition visitor_block : option block_t :=
  (open_block (as_process 200 studio) "cam").2.

Definition reel : list write_call :=
  [shot 11 Byte.x01; shot 12 Byte.x02; shot 13 Byte.x03; shot 14 Byte.x04;
   shot 15 Byte.x05; shot 16 Byte.x06; shot 17 Byte.x07].

(** The region and the publications after the first [k] shots of the
    reel. *)
Definition cam_after (k : nat) : buffer_t :=
  match run_calls cam [] (take k reel) with
  | Some (b, _) => b
  | None => cam
  end.

Definition pubs_after (k : nat) : list publication :=
  match run_calls cam [] (take k reel) with
  | Some (_, pubs) => pubs
  | None => []
  end.

(** The frame of a consumer that has read uid [u] of the reel. *)
Definition seen (u : Z) (x : Byte.byte) : frame_t :=
  {| f_width := 2; f_height := 2; f_depth := 1;
     f_acquisition_time := 10 + u; f_frame_uid := u; f_data := solid x |}.






(* ================================================================== *)
(** ** The calls on a handle *)

(** [block_image_size] (buffer.c 53-55). *)
Definition block_image_size (w : world) (block : option block_t)
    : outcome Z :=
  match deref w block with
  | Ret (_, b) => Ret (buffer_image_size b)
  | Blocked => Blocked
  | Fault e => Fault e
  end.

(** [write_frame] as called on a handle: line 59 follows [block->buffer],
    and what the body writes lands in the shared object. *)
Definition block_write_frame (w : world) (block : option block_t)
    (width height depth acquisition_time : Z) (data : list Byte.byte)
    : outcome (Z * world) :=
  match deref w block with
  | Ret (obj, b) =>
    match write_frame b width height depth acquisition_time data with
    | Ret (code, b') => Ret (code, set_objects w (<[obj := b']> (w_objects w)))
    | Blocked => Blocked
    | Fault e => Fault e
    end
  | Blocked => Blocked
  | Fault e => Fault e
  end.

(** [read_frame] as called on a handle; it writes to the caller's frame
    only. *)
Definition block_read_frame (uninit : nat -> Byte.byte) (w : world)
    (block : option block_t) (frame : frame_t) (block_thread : bool)
    (wakes : list buffer_t) : outcome (Z * frame_t) :=
  match deref w block with
  | Ret (_, b) => read_frame uninit b frame block_thread wakes
  | Blocked => Blocked
  | Fault e => Fault e
  end.

(** The handle that [create_block] gave process 100 for "cam". *)
Definition studio_block : option block_t :=
  handle_after (create_block sizeof_example boot "cam" 2 2 1).

(** Process 100 has also created a region under the archive name of
    "cam". *)
Definition cam_archive_name : string := "cam" +:+ archived.

Definition two_studios : world :=
  world_after studio
    (create_block sizeof_example studio cam_archive_name 1 1 1).

(** Process 200 has opened "cam" a second time: it holds the handles at
    addresses 1 and 2. *)
Definition visitor_twice : world := (open_block visitor "cam").1.

(* ================================================================== *)
(** * Properties *)

(** ** Machine arithmetic *)

Lemma wrap64_range z : 0 <= wrap64 z < 2 ^ 64.
Proof. unfold wrap64. apply Z.mod_pos_bound. lia. Qed.

Lemma wrap64_small z : 0 <= z < 2 ^ 64 -> wrap64 z = z.
Proof. intros H. unfold wrap64. apply Z.mod_small. exact H. Qed.

Lemma wrap64_idem z : wrap64 (wrap64 z) = wrap64 z.
Proof. apply wrap64_small, wrap64_range. Qed.

Lemma wrap64_le z : 0 <= z -> wrap64 z <= z.
Proof. intros H. unfold wrap64. apply Z.mod_le; lia. Qed.

Lemma wrap64_succ x : wrap64 (wrap64 x + 1) = wrap64 (x + 1).
Proof. unfold wrap64. apply Zplus_mod_idemp_l. Qed.

Lemma wrap64_add_l x n : wrap64 (wrap64 x + n) = wrap64 (x + n).
Proof. unfold wrap64. apply Zplus_mod_idemp_l. Qed.

Lemma wrap64_zero_large x : 0 < x -> wrap64 x = 0 -> 2 ^ 64 <= x.
Proof.
  intros Hpos Hz. destruct (Z_lt_le_dec x (2 ^ 64)) as [Hlt | ?]; [| assumption].
  rewrite wrap64_small in Hz by lia. lia.
Qed.

Lemma wrap32_small z : 0 <= z < 2 ^ 32 -> wrap32 z = z.
Proof. intros H. unfold wrap32. apply Z.mod_small. exact H. Qed.

Lemma to_int_small z : 0 <= z < 2 ^ 31 -> to_int z = z.
Proof.
  intros H. unfold to_int. rewrite wrap32_small by lia.
  destruct (Z.ltb_spec z (2 ^ 31)); lia.
Qed.

Lemma mod_count_range z : 0 <= z mod BUFFER_COUNT < BUFFER_COUNT.
Proof. apply Z.mod_pos_bound. reflexivity. Qed.

Lemma max_spec a b : max a b = Z.max a b.
Proof. unfold max. destruct (Z.ltb_spec b a); lia. Qed.

Lemma buffer_image_size_range b : 0 <= buffer_image_size b < 2 ^ 64.
Proof. apply wrap64_range. Qed.

Lemma image_size_once b : wrap64 (buffer_image_size b * 1) = buffer_image_size b.
Proof. rewrite Z.mul_1_r. apply wrap64_idem. Qed.

Lemma buffer_to_write_to_eq b :
  buffer_to_write_to b = wrap64 (frame_cnt b + 1) mod BUFFER_COUNT.
Proof.
  unfold buffer_to_write_to. apply wrap32_small.
  pose proof (mod_count_range (wrap64 (frame_cnt b + 1))).
  unfold BUFFER_COUNT in *. lia.
Qed.

Lemma buffer_to_write_to_range b :
  0 <= buffer_to_write_to b < BUFFER_COUNT.
Proof. rewrite buffer_to_write_to_eq. apply mod_count_range. Qed.

Lemma target_buffer_eq newest last :
  target_buffer newest last = target_frame_uid newest last mod BUFFER_COUNT.
Proof.
  unfold target_buffer. apply to_int_small.
  pose proof (mod_count_range (target_frame_uid newest last)).
  unfold BUFFER_COUNT in *. lia.
Qed.

Lemma target_buffer_range newest last :
  0 <= target_buffer newest last < BUFFER_COUNT.
Proof. rewrite target_buffer_eq. apply mod_count_range. Qed.

Lemma target_frame_uid_eq newest last :
  0 <= newest < 2 ^ 64 ->
  target_frame_uid newest last =
    if newest <? BUFFER_COUNT then wrap64 (last + 1)
    else Z.max (wrap64 (last + 1)) (newest - BUFFER_COUNT + 1).
Proof.
  intros Hn. unfold target_frame_uid.
  destruct (Z.ltb_spec newest BUFFER_COUNT) as [? | Hge]; [reflexivity |].
  unfold BUFFER_COUNT in *. rewrite max_spec.
  rewrite (wrap64_small (newest - 3)) by lia.
  rewrite (wrap64_small (newest - 3 + 1)) by lia. reflexivity.
Qed.

Lemma slot_offset_in_bounds size slot :
  0 <= size -> 0 <= slot < BUFFER_COUNT ->
  0 <= wrap64 (size * slot) /\
  wrap64 (size * slot) + size <= BUFFER_COUNT * size.
Proof.
  intros Hs Hslot. pose proof (wrap64_range (size * slot)).
  pose proof (wrap64_le (size * slot)). unfold BUFFER_COUNT in *. nia.
Qed.

Lemma slot_offset_exact size slot len :
  0 <= size -> 2 * size <= len -> len < 2 ^ 64 -> 0 <= slot < BUFFER_COUNT ->
  wrap64 (size * slot) = size * slot.
Proof.
  intros Hs Hr Hf Hslot. apply wrap64_small. unfold BUFFER_COUNT in *. nia.
Qed.

(** ** Memory primitives *)

Lemma length_realloc uninit data n : length (realloc uninit data n) = n.
Proof.
  unfold realloc. rewrite length_app, length_take, length_map, length_seq. lia.
Qed.

Lemma realloc_same_size uninit data :
  realloc uninit data (length data) = data.
Proof.
  unfold realloc. rewrite Nat.sub_diag, take_ge by lia. simpl.
  apply app_nil_r.
Qed.

Lemma bytes_at_length src off n bytes :
  bytes_at src off n = Some bytes -> length bytes = n.
Proof.
  unfold bytes_at. destruct (decide _) as [H | H]; [| discriminate].
  intros [= <-]. rewrite length_take, length_drop. lia.
Qed.

Lemma bytes_at_in_range src off n :
  (off + n <= length src)%nat -> is_Some (bytes_at src off n).
Proof.
  intros H. unfold bytes_at. destruct (decide _); [eauto | contradiction].
Qed.

Lemma memcpy_to_whole dst src n :
  length dst = n -> length src = n -> memcpy_to dst 0 src n = Some src.
Proof.
  intros Hd Hs. unfold memcpy_to.
  destruct (decide _) as [_ | H]; [| simpl in H; lia].
  simpl. rewrite take_ge by lia. rewrite drop_ge by lia.
  now rewrite app_nil_r.
Qed.

Lemma memcpy_to_length dst off src n out :
  memcpy_to dst off src n = Some out -> length out = length dst.
Proof.
  unfold memcpy_to. destruct (decide _) as [[H1 H2] | H]; [| discriminate].
  intros [= <-]. rewrite !length_app, !length_take, length_drop. lia.
Qed.

Lemma memcpy_to_read_back dst off src n out :
  memcpy_to dst off src n = Some out ->
  bytes_at out off n = Some (take n src).
Proof.
  intros H. pose proof (memcpy_to_length _ _ _ _ _ H) as Hlen.
  unfold memcpy_to in H. destruct (decide _) as [[H1 H2] | ?]; [| discriminate].
  injection H as <-. unfold bytes_at.
  destruct (decide _) as [_ | Hn]; [| lia].
  f_equal. rewrite drop_app_length' by (rewrite length_take; lia).
  rewrite take_app_length' by (rewrite length_take; lia).
  reflexivity.
Qed.

(** Bytes outside the written range are kept. *)
Lemma memcpy_to_elsewhere dst off src n out off' n' :
  memcpy_to dst off src n = Some out ->
  (off' + n' <= off \/ off + n <= off')%nat ->
  bytes_at out off' n' = bytes_at dst off' n'.
Proof.
  intros H Hdisj. pose proof (memcpy_to_length _ _ _ _ _ H) as Hlen.
  unfold memcpy_to in H. destruct (decide _) as [[H1 H2] | ?]; [| discriminate].
  injection H as <-. unfold bytes_at. rewrite Hlen.
  destruct (decide _) as [Hin | ?]; [| reflexivity].
  f_equal. apply list_eq. intros i.
  rewrite !lookup_take, !lookup_drop.
  destruct (decide (i < n')%nat) as [Hi | Hi]; [| reflexivity].
  destruct Hdisj as [Hbefore | Hafter].
  - rewrite lookup_app_l by (rewrite length_take; lia).
    rewrite lookup_take. destruct (decide _); [reflexivity | lia].
  - rewrite lookup_app_r by (rewrite length_take; lia).
    rewrite lookup_app_r by (rewrite !length_take; lia).
    rewrite lookup_drop, !length_take. f_equal. lia.
Qed.

(** ** Searching a list *)

Lemma find_refine {A : Type} (P Q : A -> bool) (l : list A) (q : A) :
  find P l = Some q -> Q q = true ->
  (forall x, Q x = true -> P x = true) ->
  find Q l = Some q.
Proof.
  intros Hfind Hq Himp. induction l as [| a l IH]; simpl in *; [discriminate |].
  destruct (P a) eqn:Hpa.
  - injection Hfind as ->. now rewrite Hq.
  - destruct (Q a) eqn:Hqa; [| now apply IH].
    apply Himp in Hqa. congruence.
Qed.

Lemma find_first {A : Type} (P : A -> bool) (l : list A) (q : A) :
  find P l = Some q ->
  exists i : nat,
    l !! i = Some q /\ P q = true /\
    forall (j : nat) (x : A), (j < i)%nat -> l !! j = Some x -> P x = false.
Proof.
  induction l as [| a l IH]; simpl; [discriminate |].
  destruct (P a) eqn:Hpa.
  - intros [= <-]. exists 0%nat. split; [reflexivity |]. split; [exact Hpa |].
    intros j x Hj. lia.
  - intros Hfind. destruct (IH Hfind) as (i & Hi & Hq & Hbefore).
    exists (S i). split; [exact Hi |]. split; [exact Hq |].
    intros [| j] x Hj; simpl.
    + now intros [= <-].
    + apply Hbefore. lia.
Qed.

(** ** The example system *)

Example studio_holds_cam :
  created sizeof_example 100 2 2 1 = cam /\
  deref studio (handle_after (create_block sizeof_example boot "cam" 2 2 1))
    = Ret (0%nat, cam).
Proof. split; vm_compute; reflexivity. Qed.

Example visitor_sees_cam : deref visitor visitor_block = Ret (0%nat, cam).
Proof. vm_compute. reflexivity. Qed.



(** ** create_block *)


(** A handle comes back only past every check, with the name inserted,
    the region mapped and the kernel's three answers favourable. *)
Lemma create_block_handle sizeof w direction width height depth w1 blk :
  create_block sizeof w direction width height depth = Ret (w1, Some blk) ->
  contains_slash direction = false /\
  w_files w !! (BLOCK_DIR +:+ direction) = None /\
  blk = {| filename := BLOCK_DIR +:+ direction; buffer := w_next w |} /\
  w1 = set_mapped
         (set_objects
            (set_files w (<[BLOCK_DIR +:+ direction := w_next w]> (w_files w)))
            (<[w_next w := created sizeof (w_pid w) width height depth]>
               (w_objects w)))
         (<[w_next w := w_next w]> (w_mapped w)) (S (w_next w)).
Proof.
  unfold create_block, file_address_from_direction.
  destruct (contains_slash direction); [discriminate |].
  destruct (decide _) as [? | Hfree]; [discriminate |].
  cbv zeta.
  destruct (open_fails _ _); [discriminate |].
  destruct (ftruncate_fails _ _); [discriminate |].
  destruct (mmap_fails _ _); [discriminate |].
  intros [= <- <-]. split; [reflexivity |]. split; [| split; reflexivity].
  destruct (w_files w !! (BLOCK_DIR +:+ direction)) eqn:E; [| reflexivity].
  exfalso. apply Hfree. now eexists.
Qed.

(** ** write_frame: the two refusals *)

Lemma write_frame_mismatch b w h d t data :
  (width b, height b, depth b) <> (w, h, d) ->
  write_frame b w h d t data = Ret (FRAME_SIZE_MISMATCH, b).
Proof.
  intros Hne. unfold write_frame.
  destruct (Z.eqb_spec (width b) w) as [Ew | ?]; simpl; [| reflexivity].
  destruct (Z.eqb_spec (height b) h) as [Eh | ?]; simpl; [| reflexivity].
  destruct (Z.eqb_spec (depth b) d) as [Ed | ?]; simpl; [| reflexivity].
  congruence.
Qed.

Lemma write_frame_not_alive b t data :
  is_alive b = false ->
  write_frame b (width b) (height b) (depth b) t data
  = Ret (BLOCK_NOT_ACTIVE, b).
Proof.
  intros Hdead. unfold write_frame. rewrite !Z.eqb_refl, Hdead. reflexivity.
Qed.

(** C6.  [write_frame] tests the geometry first and liveness second: a
    call whose (w, h, d) differs from the region's returns
    FRAME_SIZE_MISMATCH whether or not the region is alive, a call with the
    region's geometry on a region that is not alive returns
    BLOCK_NOT_ACTIVE, and in both cases the region it leaves behind is the
    region it found (frame_cnt, image bytes and slot metadata included). *)
Theorem write_frame_preconditions_in_order :
  forall (b : buffer_t) (w h d t : Z) (data : list Byte.byte),
    ((width b, height b, depth b) <> (w, h, d) ->
       write_frame b w h d t data = Ret (FRAME_SIZE_MISMATCH, b)) /\
    ((width b, height b, depth b) = (w, h, d) -> is_alive b = false ->
       write_frame b w h d t data = Ret (BLOCK_NOT_ACTIVE, b)).
Proof.
  intros b w h d t data. split.
  - apply write_frame_mismatch.
  - intros Hgeo Hdead. injection Hgeo as <- <- <-.
    now apply write_frame_not_alive.
Qed.

Lemma write_frame_preconditions_in_order_witness :
  write_frame cam 2 2 3 50 (solid Byte.x01) = Ret (FRAME_SIZE_MISMATCH, cam) /\
  write_frame (kill_buffer cam) 2 2 3 50 (solid Byte.x01)
    = Ret (FRAME_SIZE_MISMATCH, kill_buffer cam) /\
  write_frame (kill_buffer cam) 2 2 1 50 (solid Byte.x01)
    = Ret (BLOCK_NOT_ACTIVE, kill_buffer cam).
Proof.
  split; [| split].
  - apply (proj1 (write_frame_preconditions_in_order
                    cam 2 2 3 50 (solid Byte.x01))).
    discriminate.
  - apply (proj1 (write_frame_preconditions_in_order
                    (kill_buffer cam) 2 2 3 50 (solid Byte.x01))).
    discriminate.
  - apply (proj2 (write_frame_preconditions_in_order
                    (kill_buffer cam) 2 2 1 50 (solid Byte.x01)));
      reflexivity.
Defined.

(** ** write_frame: the successful path *)

Lemma write_frame_ret b w h d t data code b' :
  write_frame b w h d t data = Ret (code, b') ->
  (code <> SUCCESS /\ b' = b) \/
  (code = SUCCESS /\ is_alive b = true /\
   (w, h, d) = (width b, height b, depth b) /\
   exists md imgs,
     metadata b !! Z.to_nat (buffer_to_write_to b) = Some md /\
     memcpy_to (images b)
       (Z.to_nat (wrap64 (buffer_image_size b * buffer_to_write_to b)))
       data (Z.to_nat (buffer_image_size b)) = Some imgs /\
     b' = set_slot b (wrap64 (frame_cnt b + 1))
            (Z.to_nat (buffer_to_write_to b))
            {| frame_uid := wrap64 (frame_cnt b + 1);
               acquisition_time := t; rwlock := Unlocked |} imgs).
Proof.
  unfold write_frame. rewrite image_size_once.
  destruct (Z.eqb_spec (width b) w) as [<- | ?]; simpl;
    [| intros [= <- <-]; left; now split].
  destruct (Z.eqb_spec (height b) h) as [<- | ?]; simpl;
    [| intros [= <- <-]; left; now split].
  destruct (Z.eqb_spec (depth b) d) as [<- | ?]; simpl;
    [| intros [= <- <-]; left; now split].
  destruct (is_alive b); simpl; [| intros [= <- <-]; left; now split].
  destruct (metadata b !! _) as [md |] eqn:Hmd; [| discriminate].
  destruct (rwlock md); simpl; try discriminate.
  destruct (memcpy_to _ _ _ _) as [imgs |] eqn:Hcp; [| discriminate].
  intros [= <- <-]. right. repeat split. now exists md, imgs.
Qed.

Lemma set_slot_image_size b cnt slot md imgs :
  buffer_image_size (set_slot b cnt slot md imgs) = buffer_image_size b.
Proof. reflexivity. Qed.

Lemma same_geometry_image_size b x :
  same_geometry b x -> buffer_image_size x = buffer_image_size b.
Proof. intros (Hw & Hh & Hd). unfold buffer_image_size. now rewrite Hw, Hh, Hd. Qed.

Lemma well_formed_slot_lookup b slot :
  well_formed b -> 0 <= slot < BUFFER_COUNT ->
  is_Some (metadata b !! Z.to_nat slot).
Proof.
  intros [Hm _] Hslot. apply lookup_lt_is_Some. rewrite Hm.
  unfold BUFFER_COUNT in *. lia.
Qed.

Lemma well_formed_slot_bytes b size slot :
  well_formed b -> size = buffer_image_size b -> 0 <= slot < BUFFER_COUNT ->
  (Z.to_nat (wrap64 (size * slot)) + Z.to_nat size <= length (images b))%nat.
Proof.
  intros [_ Hi] -> Hslot. rewrite Hi.
  pose proof (buffer_image_size_range b) as Hs.
  destruct (slot_offset_in_bounds (buffer_image_size b) slot) as [H0 H1];
    [lia | assumption |].
  lia.
Qed.

(** On an alive region whose target slot is unlocked, a call with the
    region's geometry and enough data returns SUCCESS. *)
Lemma write_frame_succeeds b t data :
  is_alive b = true -> well_formed b -> quiescent b ->
  (Z.to_nat (buffer_image_size b) <= length data)%nat ->
  exists b',
    write_frame b (width b) (height b) (depth b) t data = Ret (SUCCESS, b') /\
    is_alive b' = true /\ well_formed b' /\ quiescent b' /\
    same_geometry b b' /\ frame_cnt b' = wrap64 (frame_cnt b + 1).
Proof.
  intros Halive Hwf Hq Hdata. unfold write_frame.
  rewrite !Z.eqb_refl, Halive, image_size_once. simpl.
  destruct (well_formed_slot_lookup b (buffer_to_write_to b) Hwf
              (buffer_to_write_to_range b)) as [md Hmd].
  rewrite Hmd.
  assert (Hfree : rwlock md = Unlocked).
  { unfold quiescent in Hq. rewrite Forall_forall in Hq. apply Hq.
    eapply list_elem_of_lookup_2, Hmd. }
  rewrite Hfree. simpl.
  destruct (memcpy_to _ _ _ _) as [imgs |] eqn:Hcp.
  - eexists. split; [reflexivity |].
    split; [exact Halive |]. split; [| split; [| split]].
    + destruct Hwf as [Hm Hi]. split; simpl.
      * now rewrite length_insert.
      * apply memcpy_to_length in Hcp. now rewrite Hcp.
    + unfold quiescent. simpl. apply Forall_insert; [exact Hq | reflexivity].
    + repeat split.
    + reflexivity.
  - exfalso. unfold memcpy_to in Hcp.
    destruct (decide _) as [? | Hn]; [discriminate |]. apply Hn.
    split; [| exact Hdata].
    apply well_formed_slot_bytes;
      [assumption | reflexivity | apply buffer_to_write_to_range].
Qed.

Lemma write_frame_publishes b w h d t data b' :
  write_frame b w h d t data = Ret (SUCCESS, b') ->
  let slot := wrap64 (frame_cnt b + 1) mod BUFFER_COUNT in
  frame_cnt b' = wrap64 (frame_cnt b + 1) /\
  metadata b' !! Z.to_nat slot
    = Some {| frame_uid := wrap64 (frame_cnt b + 1);
              acquisition_time := t; rwlock := Unlocked |} /\
  slot_image b' slot = Some (take (Z.to_nat (buffer_image_size b)) data) /\
  same_geometry b b' /\ is_alive b' = true /\
  length (images b') = length (images b) /\
  (forall i, i <> Z.to_nat slot -> metadata b' !! i = metadata b !! i).
Proof.
  intros Hw slot. apply write_frame_ret in Hw as [[Hne _] | (_ & Hal & _ & Hs)];
    [contradiction |].
  destruct Hs as (md & imgs & Hmd & Hcp & ->).
  rewrite buffer_to_write_to_eq in Hmd, Hcp. fold slot in Hmd, Hcp.
  rewrite buffer_to_write_to_eq. fold slot.
  split; [reflexivity |]. split; [| split; [| split; [| split; [| split]]]].
  - simpl. apply list_lookup_insert_eq. eapply lookup_lt_Some, Hmd.
  - unfold slot_image. rewrite set_slot_image_size. simpl.
    eapply memcpy_to_read_back, Hcp.
  - repeat split.
  - exact Hal.
  - simpl. eapply memcpy_to_length, Hcp.
  - intros i Hi. simpl. now apply list_lookup_insert_ne.
Qed.

(** A call leaves liveness, shape, geometry and the free locks as they
    were. *)
Lemma write_frame_keeps b w h d t data code b' :
  write_frame b w h d t data = Ret (code, b') ->
  is_alive b' = is_alive b /\ same_geometry b b' /\
  (well_formed b -> well_formed b') /\ (quiescent b -> quiescent b').
Proof.
  intros Hw. apply write_frame_ret in Hw as [[_ ->] | (_ & _ & _ & Hs)].
  - split; [reflexivity |]. split; [repeat split |]. split; auto.
  - destruct Hs as (md & imgs & _ & Hcp & ->).
    split; [reflexivity |]. split; [repeat split |]. split.
    + intros [Hm Hi]. split; simpl.
      * now rewrite length_insert.
      * apply memcpy_to_length in Hcp. now rewrite Hcp.
    + intros Hq. unfold quiescent. simpl.
      apply Forall_insert; [exact Hq | reflexivity].
Qed.

Lemma run_calls_keeps calls :
  forall b pubs b' pubs',
    run_calls b pubs calls = Some (b', pubs') ->
    is_alive b' = is_alive b /\ same_geometry b b' /\
    (well_formed b -> well_formed b') /\ (quiescent b -> quiescent b').
Proof.
  induction calls as [| c calls IH]; intros b pubs b' pubs'; simpl.
  - intros [= <- _]. split; [reflexivity |]. split; [repeat split |].
    split; auto.
  - destruct (write_frame b _ _ _ _ _) as [[code b1] | |] eqn:Hw;
      try discriminate.
    intros Hrun. apply IH in Hrun as (Ha & (Hgw & Hgh & Hgd) & Hwf & Hq).
    apply write_frame_keeps in Hw as (Ha1 & (Hw1 & Hh1 & Hd1) & Hwf1 & Hq1).
    split; [congruence |]. split; [repeat split; congruence |].
    split; auto.
Qed.

(** A created region has its three slots whenever [buffer_size] did not
    overflow. *)
Lemma created_well_formed sizeof pid w h d :
  0 <= sizeof ->
  sizeof + BUFFER_COUNT * wrap64 (wrap64 (w * h) * d) < 2 ^ 64 ->
  well_formed (created sizeof pid w h d) /\
  quiescent (created sizeof pid w h d) /\
  is_alive (created sizeof pid w h d) = true.
Proof.
  intros Hs Hfit.
  pose proof (wrap64_range (wrap64 (w * h) * d)) as Hr.
  split; [| split; [repeat constructor | reflexivity]].
  split; [reflexivity |].
  unfold created, buffer_size. cbn [fresh_buffer images].
  rewrite length_replicate. unfold buffer_image_size.
  cbn [fresh_buffer width height depth]. unfold BUFFER_COUNT in *.
  rewrite (wrap64_small (wrap64 (wrap64 (w * h) * d) * 3)) by lia.
  rewrite wrap64_small by lia. f_equal. lia.
Qed.

(** ** Counting publications *)

Lemma run_calls_count calls :
  forall b pubs b' pubs',
    frame_cnt b = wrap64 (Z.of_nat (length pubs)) ->
    run_calls b pubs calls = Some (b', pubs') ->
    frame_cnt b' = wrap64 (Z.of_nat (length pubs')).
Proof.
  induction calls as [| c calls IH]; intros b pubs b' pubs' Hcnt; simpl.
  - now intros [= <- <-].
  - destruct (write_frame b _ _ _ _ _) as [[code b1] | |] eqn:Hw;
      try discriminate.
    apply IH. apply write_frame_ret in Hw as [[Hne ->] | (-> & _ & _ & Hs)].
    + destruct (Z.eqb_spec code SUCCESS); [contradiction | exact Hcnt].
    + destruct Hs as (md & imgs & _ & _ & ->). simpl.
      rewrite Hcnt, wrap64_succ. f_equal. lia.
Qed.

Lemma run_calls_grows calls :
  forall b pubs b' pubs',
    run_calls b pubs calls = Some (b', pubs') ->
    (length pubs <= length pubs')%nat.
Proof.
  induction calls as [| c calls IH]; intros b pubs b' pubs'; simpl.
  - intros [= _ <-]. lia.
  - destruct (write_frame b _ _ _ _ _) as [[code b1] | |]; try discriminate.
    intros H. apply IH in H. revert H.
    destruct (code =? SUCCESS); simpl; lia.
Qed.

(** C1, as the code has it.  Calls run from a freshly created region:
    while the number k of successful publishes is below 2^64, [frame_cnt]
    is k; and a further successful [write_frame] (while k + 1 is below
    2^64) writes its payload into slot [(frame_cnt + 1) mod BUFFER_COUNT],
    raises [frame_cnt] by exactly one and stores the new [frame_cnt] as
    that slot's [frame_uid], with the acquisition time beside it. *)
Theorem publishes_counted_below_2_64 :
  forall (pid w h d : Z) (n : nat) (calls : list write_call)
         (b : buffer_t) (pubs : list publication),
    run_calls (fresh_buffer pid w h d n) [] calls = Some (b, pubs) ->
    Z.of_nat (length pubs) < 2 ^ 64 ->
    frame_cnt b = Z.of_nat (length pubs) /\
    forall (w' h' d' t : Z) (data : list Byte.byte) (b' : buffer_t),
      Z.of_nat (length pubs) + 1 < 2 ^ 64 ->
      write_frame b w' h' d' t data = Ret (SUCCESS, b') ->
      let slot := (frame_cnt b + 1) mod BUFFER_COUNT in
      frame_cnt b' = frame_cnt b + 1 /\
      metadata b' !! Z.to_nat slot
        = Some {| frame_uid := frame_cnt b'; acquisition_time := t;
                  rwlock := Unlocked |} /\
      slot_image b' slot = Some (take (Z.to_nat (buffer_image_size b)) data).
Proof.
  intros pid w h d n calls b pubs Hrun Hk.
  assert (Hcnt : frame_cnt b = Z.of_nat (length pubs)).
  { erewrite run_calls_count; [| | exact Hrun]; [| reflexivity].
    apply wrap64_small. lia. }
  split; [exact Hcnt |].
  intros w' h' d' t data b' Hk' Hw slot.
  apply write_frame_publishes in Hw as (Hc & Hmd & Himg & _).
  assert (Hno : wrap64 (frame_cnt b + 1) = frame_cnt b + 1)
    by (apply wrap64_small; lia).
  rewrite Hno in Hc, Hmd, Himg. rewrite Hc. now repeat split.
Qed.

Lemma publishes_counted_below_2_64_witness :
  frame_cnt (cam_after 2) = 2 /\
  frame_cnt (cam_after 3) = frame_cnt (cam_after 2) + 1 /\
  metadata (cam_after 3) !! 0%nat
    = Some {| frame_uid := frame_cnt (cam_after 3); acquisition_time := 13;
              rwlock := Unlocked |} /\
  slot_image (cam_after 3) 0 = Some (solid Byte.x03).
Proof.
  destruct (publishes_counted_below_2_64 100 2 2 1 12 (take 2 reel)
              (cam_after 2) (pubs_after 2)) as [Hcount Hstep].
  - vm_compute. reflexivity.
  - vm_compute. reflexivity.
  - split; [exact Hcount |].
    apply (Hstep 2 2 1 13 (solid Byte.x03) (cam_after 3));
      vm_compute; reflexivity.
Defined.

(** The same call repeated [n] times on an alive, unlocked region
    publishes [n] times. *)
Lemma run_calls_replicate c n :
  forall b pubs,
    is_alive b = true -> well_formed b -> quiescent b ->
    0 <= frame_cnt b < 2 ^ 64 ->
    (c_width c, c_height c, c_depth c) = (width b, height b, depth b) ->
    (Z.to_nat (buffer_image_size b) <= length (c_data c))%nat ->
    exists b' pubs',
      run_calls b pubs (replicate n c) = Some (b', pubs') /\
      length pubs' = (n + length pubs)%nat /\
      frame_cnt b' = wrap64 (frame_cnt b + Z.of_nat n).
Proof.
  induction n as [| n IH]; intros b pubs Hal Hwf Hq Hcnt Hgeo Hdata.
  - exists b, pubs. simpl. split; [reflexivity |]. split; [reflexivity |].
    rewrite Z.add_0_r. symmetry. now apply wrap64_small.
  - destruct (write_frame_succeeds b (c_time c) (c_data c) Hal Hwf Hq Hdata)
      as (b1 & Hw & Hal1 & Hwf1 & Hq1 & Hsame & Hcnt1).
    injection Hgeo as Hgw Hgh Hgd.
    cbn [replicate run_calls]. rewrite Hgw, Hgh, Hgd, Hw.
    cbn [Z.eqb SUCCESS].
    destruct (IH b1 ({| pub_uid := frame_cnt b1; pub_time := c_time c;
                        pub_payload := take (Z.to_nat (buffer_image_size b))
                                            (c_data c) |} :: pubs))
      as (b' & pubs' & Hrun & Hlen & Hfin); try assumption.
    + rewrite Hcnt1. apply wrap64_range.
    + destruct Hsame as (-> & -> & ->). congruence.
    + now rewrite (same_geometry_image_size b b1 Hsame).
    + exists b', pubs'. split; [exact Hrun |]. split.
      * rewrite Hlen. simpl. lia.
      * rewrite Hfin, Hcnt1, wrap64_add_l. f_equal. lia.
Qed.

(** C1, where it stops: 2^64 successful publishes on the 2 x 2 x 1
    region leave [frame_cnt] at 0, not at 2^64. *)
Lemma frame_cnt_wraps_at_2_64 :
  exists (b : buffer_t) (pubs : list publication),
    run_calls cam [] (replicate (Z.to_nat (2 ^ 64)) (shot 0 Byte.x00))
      = Some (b, pubs) /\
    Z.of_nat (length pubs) = 2 ^ 64 /\
    frame_cnt b = 0 /\
    frame_cnt b <> Z.of_nat (length pubs).
Proof.
  destruct (run_calls_replicate (shot 0 Byte.x00) (Z.to_nat (2 ^ 64)) cam [])
    as (b & pubs & Hrun & Hlen & Hcnt).
  - reflexivity.
  - split; reflexivity.
  - repeat constructor.
  - split; [reflexivity | reflexivity].
  - reflexivity.
  - vm_compute. lia.
  - assert (Hk : Z.of_nat (length pubs) = 2 ^ 64).
    { rewrite Hlen, Nat2Z.inj_add, Z2Nat.id by (apply Z.pow_nonneg; lia).
      change (Z.of_nat (length (@nil publication))) with 0. lia. }
    assert (Hz : frame_cnt b = 0).
    { rewrite Hcnt, Z2Nat.id by (apply Z.pow_nonneg; lia). reflexivity. }
    exists b, pubs. split; [exact Hrun |]. split; [exact Hk |].
    split; [exact Hz |]. rewrite Hz, Hk. discriminate.
Qed.

(** ** read_frame: admission and copy-out *)

Lemma frame_image_size_adopt uninit b f :
  frame_image_size (adopt_geometry uninit b f) = buffer_image_size b.
Proof. reflexivity. Qed.

Lemma acquire_read_lock_inr target b wakes b_r md :
  acquire_read_lock target b wakes = Ret (inr (b_r, md)) ->
  b_r ∈ b :: wakes /\ metadata b_r !! target = Some md /\
  (b_r = b \/ is_alive b_r = true).
Proof.
  revert b. induction wakes as [| x wakes IH]; intros b; simpl.
  - destruct (metadata b !! target) as [m |] eqn:Hm; [| discriminate].
    destruct (pthread_rwlock_tryrdlock (rwlock m)); [| discriminate].
    intros [= <- <-]. split; [left | now split; [| left]].
  - destruct (metadata b !! target) as [m |] eqn:Hm; [| discriminate].
    destruct (pthread_rwlock_tryrdlock (rwlock m)).
    + intros [= <- <-]. split; [left | now split; [| left]].
    + destruct (is_alive x) eqn:Hx; simpl; [| discriminate].
      intros H. destruct (IH _ H) as (Hin & Hmd & Hor).
      split; [now right |]. split; [exact Hmd |].
      right. destruct Hor as [-> | ?]; assumption.
Qed.

Lemma admission_inr b last block_thread wakes b_r md :
  admission b last block_thread wakes = Ret (inr (b_r, md)) ->
  is_alive b = true /\ is_alive b_r = true /\ b_r ∈ b :: wakes /\
  metadata b_r !! Z.to_nat (target_buffer (frame_cnt b) last) = Some md.
Proof.
  unfold admission. destruct (is_alive b) eqn:Hb; simpl; [| discriminate].
  destruct (last =? frame_cnt b).
  - destruct block_thread; [| discriminate].
    destruct wakes as [| x wakes]; [discriminate |].
    destruct (is_alive x) eqn:Hx; simpl; [| discriminate].
    intros H. apply acquire_read_lock_inr in H as (Hin & Hmd & Hor).
    split; [reflexivity |]. split; [destruct Hor as [-> | ?]; assumption |].
    split; [now right | exact Hmd].
  - intros H. apply acquire_read_lock_inr in H as (Hin & Hmd & Hor).
    split; [reflexivity |]. split; [destruct Hor as [-> | ?]; assumption |].
    split; assumption.
Qed.

Lemma admission_inr_source b last block_thread wakes b_r md :
  admission b last block_thread wakes = Ret (inr (b_r, md)) ->
  (last <> frame_cnt b /\ b_r = b) \/ b_r ∈ wakes.
Proof.
  unfold admission. destruct (negb (is_alive b)); [discriminate |].
  destruct (Z.eqb_spec last (frame_cnt b)) as [? | Hne].
  - destruct block_thread; [| discriminate].
    destruct wakes as [| x wakes]; [discriminate |].
    destruct (negb (is_alive x)); [discriminate |].
    intros H. apply acquire_read_lock_inr in H as (Hin & _). now right.
  - intros H. apply acquire_read_lock_inr in H as (Hin & _).
    apply elem_of_cons in Hin as [-> | ?]; [left | right]; auto.
Qed.

Lemma admission_inl b last block_thread wakes code :
  admission b last block_thread wakes = Ret (inl code) ->
  code = BLOCK_NOT_ACTIVE \/ code = NO_NEW_FRAME.
Proof.
  assert (Hloop : forall target wakes b,
             acquire_read_lock target b wakes = Ret (inl code) ->
             code = BLOCK_NOT_ACTIVE).
  { intros target ws. induction ws as [| x ws IH]; intros b0; simpl;
      destruct (metadata b0 !! target) as [m |]; try discriminate;
      destruct (pthread_rwlock_tryrdlock (rwlock m)); try discriminate.
    destruct (is_alive x); simpl; [apply IH | now intros [= <-]]. }
  unfold admission. destruct (is_alive b); simpl; [| intros [= <-]; now left].
  destruct (last =? frame_cnt b).
  - destruct block_thread; [| intros [= <-]; now right].
    destruct wakes as [| x wakes]; [discriminate |].
    destruct (is_alive x); simpl; [| intros [= <-]; now left].
    intros H. left. eapply Hloop, H.
  - intros H. left. eapply Hloop, H.
Qed.

Lemma copy_out_ret b md target f code f' :
  copy_out b md target f = Ret (code, f') ->
  length (f_data f) = Z.to_nat (frame_image_size f) ->
  code = SUCCESS /\
  f_frame_uid f' = frame_uid md /\
  f_acquisition_time f' = acquisition_time md /\
  (f_width f', f_height f', f_depth f') = (f_width f, f_height f, f_depth f) /\
  bytes_at (images b) (Z.to_nat (wrap64 (frame_image_size f * target)))
           (Z.to_nat (frame_image_size f)) = Some (f_data f').
Proof.
  unfold copy_out. intros H Hlen.
  assert (Hone : wrap64 (frame_image_size f * 1) = frame_image_size f).
  { rewrite Z.mul_1_r. apply wrap64_idem. }
  rewrite Hone in H.
  destruct (bytes_at _ _ _) as [bytes |] eqn:Hb; [| discriminate].
  rewrite memcpy_to_whole in H
    by (try assumption; eapply bytes_at_length; eassumption).
  injection H as <- <-. simpl. repeat split.
Qed.

Lemma read_frame_success uninit b frame block_thread wakes frame' :
  read_frame uninit b frame block_thread wakes = Ret (SUCCESS, frame') ->
  exists b_r md,
    admission b (f_frame_uid frame) block_thread wakes = Ret (inr (b_r, md)) /\
    copy_out b_r md (target_buffer (frame_cnt b) (f_frame_uid frame))
             (adopt_geometry uninit b frame) = Ret (SUCCESS, frame').
Proof.
  unfold read_frame. cbn [adopt_geometry f_frame_uid].
  destruct (admission b (f_frame_uid frame) block_thread wakes)
    as [[code | [b_r md]] | | e] eqn:Ha; try discriminate.
  - intros [= -> _]. apply admission_inl in Ha as [? | ?]; discriminate.
  - intros H. now exists b_r, md.
Qed.

(** ** read_frame on a consumer that is behind *)

Lemma acquire_read_lock_shared target b wakes md :
  metadata b !! target = Some md -> rwlock md <> WrLocked ->
  acquire_read_lock target b wakes = Ret (inr (b, md)).
Proof.
  intros Hmd Hlock.
  destruct wakes; simpl; rewrite Hmd;
    (destruct (rwlock md); [reflexivity | reflexivity | contradiction]).
Qed.

(** No wait and no fault: the slot's lock lets a reader in and its bytes
    are there. *)
Lemma read_frame_at_once uninit b frame block_thread wakes md data :
  is_alive b = true -> f_frame_uid frame <> frame_cnt b ->
  metadata b !! Z.to_nat (target_buffer (frame_cnt b) (f_frame_uid frame))
    = Some md ->
  rwlock md <> WrLocked ->
  slot_image b (target_buffer (frame_cnt b) (f_frame_uid frame)) = Some data ->
  read_frame uninit b frame block_thread wakes
  = Ret (SUCCESS,
         {| f_width := width b; f_height := height b; f_depth := depth b;
            f_acquisition_time := acquisition_time md;
            f_frame_uid := frame_uid md; f_data := data |}).
Proof.
  intros Hal Hne Hmd Hlock Himg.
  unfold read_frame, admission. cbn [adopt_geometry f_frame_uid].
  rewrite Hal. cbn [negb].
  destruct (Z.eqb_spec (f_frame_uid frame) (frame_cnt b)) as [E | _];
    [contradiction |].
  rewrite (acquire_read_lock_shared _ b wakes md Hmd Hlock).
  unfold copy_out. rewrite frame_image_size_adopt, image_size_once.
  unfold slot_image in Himg. rewrite Himg.
  rewrite memcpy_to_whole; [reflexivity | |].
  - cbn [adopt_geometry f_data]. apply length_realloc.
  - eapply bytes_at_length, Himg.
Qed.

(** The producer holds the slot and nobody wakes the reader. *)
Lemma read_frame_waits uninit b frame block_thread md :
  is_alive b = true -> f_frame_uid frame <> frame_cnt b ->
  metadata b !! Z.to_nat (target_buffer (frame_cnt b) (f_frame_uid frame))
    = Some md ->
  rwlock md = WrLocked ->
  read_frame uninit b frame block_thread [] = Blocked.
Proof.
  intros Hal Hne Hmd Hlock.
  unfold read_frame, admission. cbn [adopt_geometry f_frame_uid].
  rewrite Hal. cbn [negb].
  destruct (Z.eqb_spec (f_frame_uid frame) (frame_cnt b)) as [E | _];
    [contradiction |].
  simpl. now rewrite Hmd, Hlock.
Qed.

Lemma well_formed_slot_image b slot :
  well_formed b -> 0 <= slot < BUFFER_COUNT -> is_Some (slot_image b slot).
Proof.
  intros Hwf Hslot. apply bytes_at_in_range.
  now apply well_formed_slot_bytes.
Qed.

(** A caught-up reader that asked to wait and is woken into [b']. *)
Lemma read_frame_woken uninit b frame wakes b' md data :
  is_alive b = true -> f_frame_uid frame = frame_cnt b ->
  is_alive b' = true -> same_geometry b b' ->
  metadata b' !! Z.to_nat (target_buffer (frame_cnt b) (f_frame_uid frame))
    = Some md ->
  rwlock md <> WrLocked ->
  slot_image b' (target_buffer (frame_cnt b) (f_frame_uid frame)) = Some data ->
  read_frame uninit b frame true (b' :: wakes)
  = Ret (SUCCESS,
         {| f_width := width b; f_height := height b; f_depth := depth b;
            f_acquisition_time := acquisition_time md;
            f_frame_uid := frame_uid md; f_data := data |}).
Proof.
  intros Hal Hup Hal' Hgeo Hmd Hlock Himg.
  unfold read_frame, admission. cbn [adopt_geometry f_frame_uid].
  rewrite Hal, Hal'. cbn [negb].
  destruct (Z.eqb_spec (f_frame_uid frame) (frame_cnt b)) as [_ | E];
    [| contradiction].
  rewrite (acquire_read_lock_shared _ b' wakes md Hmd Hlock).
  unfold copy_out. rewrite frame_image_size_adopt, image_size_once.
  unfold slot_image in Himg.
  rewrite (same_geometry_image_size b b' Hgeo) in Himg. rewrite Himg.
  rewrite memcpy_to_whole; [reflexivity | |].
  - cbn [adopt_geometry f_data]. apply length_realloc.
  - eapply bytes_at_length, Himg.
Qed.

(** ** The target of read_frame *)

(** C2.  With [last] the frame's uid on entry and [newest] the region's
    [frame_cnt] on entry, [read_frame] targets uid [last + 1] while
    [newest < BUFFER_COUNT] and [max (last + 1) (newest - BUFFER_COUNT + 1)]
    afterwards ([last + 1] computed in [uint64_t]; it is the integer
    [last + 1] unless [last] is the largest [uint64_t]), and it reads slot
    [target_uid mod BUFFER_COUNT]:
    - a call that returns SUCCESS delivers the uid, the time stamp and the
      image bytes of that slot of the region as it was when the read lock
      was taken;
    - on an alive region with its three slots, a consumer that is behind
      gets SUCCESS with the uid, the time stamp and the bytes of that slot
      unless the producer holds the slot's lock, in which case it waits;
    - a caught-up consumer that asked to wait and is woken gets them from
      that slot of the region it wakes into. *)
Theorem read_frame_target_slot :
  forall (uninit : nat -> Byte.byte) (b : buffer_t) (frame : frame_t)
         (block_thread : bool) (wakes : list buffer_t) (frame' : frame_t),
    0 <= frame_cnt b < 2 ^ 64 ->
    0 <= f_frame_uid frame < 2 ^ 64 ->
    let last := f_frame_uid frame in
    let newest := frame_cnt b in
    let target_uid := target_frame_uid newest last in
    let delivered (md : frame_metadata_t) (data : list Byte.byte) :=
      Ret (SUCCESS,
           {| f_width := width b; f_height := height b; f_depth := depth b;
              f_acquisition_time := acquisition_time md;
              f_frame_uid := frame_uid md; f_data := data |}) in
    target_uid =
      (if newest <? BUFFER_COUNT then wrap64 (last + 1)
       else Z.max (wrap64 (last + 1)) (newest - BUFFER_COUNT + 1)) /\
    (last + 1 < 2 ^ 64 ->
     target_uid =
       if newest <? BUFFER_COUNT then last + 1
       else Z.max (last + 1) (newest - BUFFER_COUNT + 1)) /\
    target_buffer newest last = target_uid mod BUFFER_COUNT /\
    (read_frame uninit b frame block_thread wakes = Ret (SUCCESS, frame') ->
     exists (b_r : buffer_t) (md : frame_metadata_t),
       b_r ∈ b :: wakes /\
       metadata b_r !! Z.to_nat (target_uid mod BUFFER_COUNT) = Some md /\
       f_frame_uid frame' = frame_uid md /\
       f_acquisition_time frame' = acquisition_time md /\
       bytes_at (images b_r)
         (Z.to_nat (wrap64 (buffer_image_size b * (target_uid mod BUFFER_COUNT))))
         (Z.to_nat (buffer_image_size b)) = Some (f_data frame')) /\
    (is_alive b = true -> well_formed b -> last <> newest ->
     exists (md : frame_metadata_t) (data : list Byte.byte),
       metadata b !! Z.to_nat (target_uid mod BUFFER_COUNT) = Some md /\
       slot_image b (target_uid mod BUFFER_COUNT) = Some data /\
       (rwlock md <> WrLocked ->
        read_frame uninit b frame block_thread wakes = delivered md data) /\
       (rwlock md = WrLocked ->
        read_frame uninit b frame block_thread [] = Blocked)) /\
    (is_alive b = true -> last = newest ->
     forall b' : buffer_t,
       is_alive b' = true -> well_formed b' -> same_geometry b b' ->
       exists (md : frame_metadata_t) (data : list Byte.byte),
         metadata b' !! Z.to_nat (target_uid mod BUFFER_COUNT) = Some md /\
         slot_image b' (target_uid mod BUFFER_COUNT) = Some data /\
         (rwlock md <> WrLocked ->
          read_frame uninit b frame true (b' :: wakes) = delivered md data)).
Proof.
  intros uninit b frame block_thread wakes frame' Hn Hl last newest target_uid
         delivered.
  assert (Heq := target_frame_uid_eq newest last Hn).
  split; [exact Heq |]. split; [| split; [| split; [| split]]].
  - intros Hno. unfold target_uid. rewrite Heq.
    now rewrite (wrap64_small (last + 1)) by (unfold last; lia).
  - apply target_buffer_eq.
  - intros H. apply read_frame_success in H as (b_r & md & Ha & Hc).
    apply admission_inr in Ha as (_ & _ & Hin & Hmd).
    apply copy_out_ret in Hc as (_ & Hu & Ht & _ & Hbytes).
    2:{ cbn [adopt_geometry f_data]. now rewrite length_realloc. }
    rewrite frame_image_size_adopt in Hbytes.
    fold last newest in Hmd, Hbytes. rewrite target_buffer_eq in Hmd, Hbytes.
    exists b_r, md. repeat split; assumption.
  - intros Hal Hwf Hne.
    destruct (well_formed_slot_lookup b _ Hwf (mod_count_range target_uid))
      as [md Hmd].
    destruct (well_formed_slot_image b _ Hwf (mod_count_range target_uid))
      as [data Himg].
    exists md, data. split; [exact Hmd |]. split; [exact Himg |].
    unfold target_uid in Hmd, Himg. rewrite <- target_buffer_eq in Hmd, Himg.
    split; intros Hlock.
    + now apply read_frame_at_once.
    + now apply (read_frame_waits uninit b frame block_thread md).
  - intros Hal Hup b' Hal' Hwf' Hgeo.
    destruct (well_formed_slot_lookup b' _ Hwf' (mod_count_range target_uid))
      as [md Hmd].
    destruct (well_formed_slot_image b' _ Hwf' (mod_count_range target_uid))
      as [data Himg].
    exists md, data. split; [exact Hmd |]. split; [exact Himg |].
    unfold target_uid in Hmd, Himg. rewrite <- target_buffer_eq in Hmd, Himg.
    intros Hlock. now apply read_frame_woken.
Qed.

Lemma read_frame_target_slot_witness :
  target_frame_uid (frame_cnt (cam_after 7)) (f_frame_uid new_frame) = 5 /\
  target_buffer (frame_cnt (cam_after 7)) (f_frame_uid new_frame) = 2 /\
  metadata (cam_after 7) !! 2%nat
    = Some {| frame_uid := 5; acquisition_time := 15; rwlock := Unlocked |} /\
  slot_image (cam_after 7) 2 = Some (solid Byte.x05) /\
  read_frame uninit_aa (cam_after 7) new_frame false []
    = Ret (SUCCESS,
           {| f_width := 2; f_height := 2; f_depth := 1;
              f_acquisition_time := 15; f_frame_uid := 5;
              f_data := solid Byte.x05 |}).
Proof.
  destruct (read_frame_target_slot uninit_aa (cam_after 7) new_frame false []
              new_frame)
    as (Huid & _ & Hslot & _ & Hbehind & _).
  - vm_compute. split; [discriminate | reflexivity].
  - vm_compute. split; [discriminate | reflexivity].
  - assert (Hu : target_frame_uid (frame_cnt (cam_after 7))
                   (f_frame_uid new_frame) = 5)
      by (rewrite Huid; vm_compute; reflexivity).
    split; [exact Hu |].
    split; [rewrite Hslot, Hu; reflexivity |].
    assert (Hne : f_frame_uid new_frame <> frame_cnt (cam_after 7))
      by (vm_compute; discriminate).
    destruct (Hbehind eq_refl (conj eq_refl eq_refl) Hne)
      as (md & data & Hmd & Himg & Hread & _).
    rewrite Hu in Hmd, Himg.
    assert (Emd : md = {| frame_uid := 5; acquisition_time := 15;
                          rwlock := Unlocked |})
      by (vm_compute in Hmd; now injection Hmd as <-).
    assert (Edata : data = solid Byte.x05)
      by (vm_compute in Himg; now injection Himg as <-).
    subst md data.
    split; [exact Hmd |]. split; [exact Himg |].
    apply Hread. discriminate.
Defined.

(** ** Slot indices and memory accesses *)

Lemma write_frame_no_fault b w h d t data e :
  well_formed b ->
  (Z.to_nat (buffer_image_size b) <= length data)%nat ->
  write_frame b w h d t data <> Fault e.
Proof.
  intros Hwf Hdata. unfold write_frame.
  destruct (_ || _); [discriminate |].
  destruct (negb (is_alive b)); [discriminate |].
  destruct (well_formed_slot_lookup b (buffer_to_write_to b) Hwf
              (buffer_to_write_to_range b)) as [md ->].
  destruct (pthread_rwlock_wrlock (rwlock md)); [| discriminate].
  rewrite image_size_once. unfold memcpy_to.
  destruct (decide _) as [_ | Hn]; [discriminate |].
  exfalso. apply Hn. split; [| exact Hdata].
  apply well_formed_slot_bytes;
    [assumption | reflexivity | apply buffer_to_write_to_range].
Qed.

Lemma acquire_read_lock_no_fault target b wakes e :
  (target < Z.to_nat BUFFER_COUNT)%nat ->
  Forall well_formed (b :: wakes) ->
  acquire_read_lock target b wakes <> Fault e.
Proof.
  intros Ht. revert b. induction wakes as [| x wakes IH]; intros b Hall;
    apply Forall_cons in Hall as [[Hm _] Hrest]; simpl;
    (destruct (lookup_lt_is_Some_2 (metadata b) target) as [md ->];
       [rewrite Hm; exact Ht |]);
    destruct (pthread_rwlock_tryrdlock (rwlock md)); try discriminate.
  destruct (negb (is_alive x)); [discriminate |]. now apply IH.
Qed.

Lemma admission_no_fault b last block_thread wakes e :
  Forall well_formed (b :: wakes) ->
  admission b last block_thread wakes <> Fault e.
Proof.
  intros Hall. unfold admission.
  assert (Ht : (Z.to_nat (target_buffer (frame_cnt b) last)
                < Z.to_nat BUFFER_COUNT)%nat).
  { pose proof (target_buffer_range (frame_cnt b) last). lia. }
  destruct (negb (is_alive b)); [discriminate |].
  destruct (last =? frame_cnt b).
  - destruct block_thread; [| discriminate].
    destruct wakes as [| x wakes]; [discriminate |].
    destruct (negb (is_alive x)); [discriminate |].
    apply acquire_read_lock_no_fault; [exact Ht |].
    now apply Forall_cons in Hall as [_ ?].
  - now apply acquire_read_lock_no_fault.
Qed.

Lemma copy_out_no_fault b_r md target f e :
  well_formed b_r ->
  frame_image_size f = buffer_image_size b_r ->
  length (f_data f) = Z.to_nat (frame_image_size f) ->
  0 <= target < BUFFER_COUNT ->
  copy_out b_r md target f <> Fault e.
Proof.
  intros Hwf Hsize Hlen Ht. unfold copy_out.
  assert (Hone : wrap64 (frame_image_size f * 1) = frame_image_size f).
  { rewrite Z.mul_1_r. apply wrap64_idem. }
  rewrite Hone.
  destruct (bytes_at_in_range (images b_r)
              (Z.to_nat (wrap64 (frame_image_size f * target)))
              (Z.to_nat (frame_image_size f))) as [bytes Hb].
  { now apply well_formed_slot_bytes. }
  rewrite Hb. rewrite memcpy_to_whole; [discriminate | exact Hlen |].
  eapply bytes_at_length, Hb.
Qed.

Lemma copy_out_succeeds b_r md target f :
  well_formed b_r ->
  frame_image_size f = buffer_image_size b_r ->
  length (f_data f) = Z.to_nat (frame_image_size f) ->
  0 <= target < BUFFER_COUNT ->
  exists f',
    copy_out b_r md target f = Ret (SUCCESS, f') /\
    f_frame_uid f' = frame_uid md.
Proof.
  intros Hwf Hsize Hlen Ht.
  destruct (copy_out b_r md target f) as [[code f'] | | e] eqn:Hc.
  - apply copy_out_ret in Hc as (-> & Hu & _); [| exact Hlen].
    now exists f'.
  - exfalso. unfold copy_out in Hc.
    destruct (bytes_at _ _ _); [| discriminate].
    destruct (memcpy_to _ _ _ _); discriminate.
  - exfalso. now apply copy_out_no_fault in Hc.
Qed.

Lemma read_frame_no_fault uninit b frame block_thread wakes e :
  well_formed b ->
  Forall (fun x => well_formed x /\ same_geometry b x) wakes ->
  read_frame uninit b frame block_thread wakes <> Fault e.
Proof.
  intros Hwf Hwakes. unfold read_frame.
  assert (Hall : Forall well_formed (b :: wakes)).
  { constructor; [exact Hwf |]. eapply Forall_impl; [exact Hwakes |].
    now intros x [? _]. }
  destruct (admission b _ block_thread wakes) as [[code | [b_r md]] | | e']
    eqn:Ha; try discriminate.
  - apply admission_inr in Ha as (_ & _ & Hin & _).
    apply copy_out_no_fault.
    + rewrite Forall_forall in Hall. now apply Hall.
    + rewrite frame_image_size_adopt. symmetry.
      apply elem_of_cons in Hin as [-> | Hin]; [reflexivity |].
      rewrite Forall_forall in Hwakes.
      now apply same_geometry_image_size, Hwakes.
    + cbn [adopt_geometry f_data]. now rewrite length_realloc.
    + apply target_buffer_range.
  - now apply admission_no_fault in Ha.
Qed.

(** C9.  The slot index of [write_frame], [(frame_cnt + 1) mod
    BUFFER_COUNT], and that of [read_frame], [target_frame_uid mod
    BUFFER_COUNT], are below BUFFER_COUNT; the byte range either of them
    addresses, [image_size] bytes from [image_size * slot], ends within
    [BUFFER_COUNT * image_size]; hence on a region that has BUFFER_COUNT
    metadata entries and BUFFER_COUNT slots of width * height * depth bytes
    neither call leaves the metadata array or the images array. *)
Theorem slot_accesses_stay_in_region :
  forall (uninit : nat -> Byte.byte) (b : buffer_t) (w h d t : Z)
         (data : list Byte.byte) (frame : frame_t) (block_thread : bool)
         (wakes : list buffer_t),
    (buffer_to_write_to b = wrap64 (frame_cnt b + 1) mod BUFFER_COUNT /\
     0 <= buffer_to_write_to b < BUFFER_COUNT) /\
    (target_buffer (frame_cnt b) (f_frame_uid frame)
       = target_frame_uid (frame_cnt b) (f_frame_uid frame) mod BUFFER_COUNT /\
     0 <= target_buffer (frame_cnt b) (f_frame_uid frame) < BUFFER_COUNT) /\
    (forall slot : Z, 0 <= slot < BUFFER_COUNT ->
       0 <= wrap64 (buffer_image_size b * slot) /\
       wrap64 (buffer_image_size b * slot) + buffer_image_size b
         <= BUFFER_COUNT * buffer_image_size b) /\
    (well_formed b ->
     (Z.to_nat (buffer_image_size b) <= length data)%nat ->
     forall e, write_frame b w h d t data <> Fault e) /\
    (well_formed b ->
     Forall (fun x => well_formed x /\ same_geometry b x) wakes ->
     forall e, read_frame uninit b frame block_thread wakes <> Fault e).
Proof.
  intros. split; [| split; [| split; [| split]]].
  - split; [apply buffer_to_write_to_eq | apply buffer_to_write_to_range].
  - split; [apply target_buffer_eq | apply target_buffer_range].
  - intros slot Hslot. apply slot_offset_in_bounds; [| exact Hslot].
    apply buffer_image_size_range.
  - intros Hwf Hdata e. now apply write_frame_no_fault.
  - intros Hwf Hwakes e. now apply read_frame_no_fault.
Qed.

Lemma slot_accesses_stay_in_region_witness :
  (forall e, write_frame (cam_after 3) 2 2 1 14 (solid Byte.x04) <> Fault e) /\
  (forall e, read_frame uninit_aa (cam_after 3) new_frame true [cam_after 4]
             <> Fault e).
Proof.
  destruct (slot_accesses_stay_in_region uninit_aa (cam_after 3) 2 2 1 14
              (solid Byte.x04) new_frame true [cam_after 4])
    as (_ & _ & _ & Hwrite & Hread).
  split.
  - apply Hwrite; [split; reflexivity | vm_compute; lia].
  - apply Hread; [split; reflexivity |].
    constructor; [| constructor].
    split; [split; reflexivity | repeat split].
Defined.

(** ** The ring invariant *)

Lemma ring_invariant_fresh pid w h d n :
  Z.of_nat n < 2 ^ 64 -> ring_invariant (fresh_buffer pid w h d n) [].
Proof.
  intros Hn. split.
  - reflexivity.
  - intros i p H. rewrite lookup_nil in H. discriminate.
  - intros slot md _ Hmd. cbn [fresh_buffer metadata] in Hmd.
    apply lookup_replicate in Hmd as [-> _]. reflexivity.
  - intros H. now contradict H.
  - cbn [fresh_buffer images]. now rewrite length_replicate.
Qed.

Lemma created_fits sizeof pid w h d :
  0 <= sizeof ->
  Z.of_nat (length (images (created sizeof pid w h d))) < 2 ^ 64.
Proof.
  intros Hs. unfold created. simpl. rewrite length_replicate.
  unfold buffer_size.
  pose proof (wrap64_range
    (sizeof + wrap64 (wrap64 (wrap64 (w * h) * d) * BUFFER_COUNT))).
  lia.
Qed.

Lemma ring_invariant_created sizeof pid w h d :
  0 <= sizeof -> ring_invariant (created sizeof pid w h d) [].
Proof.
  intros Hs. apply ring_invariant_fresh.
  pose proof (created_fits sizeof pid w h d Hs) as H.
  unfold created in H. simpl in H. now rewrite length_replicate in H.
Qed.

Lemma ring_invariant_publish b pubs w h d t data b' :
  ring_invariant b pubs ->
  write_frame b w h d t data = Ret (SUCCESS, b') ->
  ring_invariant b'
    ({| pub_uid := frame_cnt b'; pub_time := t;
        pub_payload := take (Z.to_nat (buffer_image_size b)) data |} :: pubs).
Proof.
  intros [Hcnt Huids Hslots Hroom Hfits] Hw.
  pose proof (buffer_image_size_range b) as Hsize.
  pose proof (write_frame_publishes _ _ _ _ _ _ _ Hw)
    as (Hc & Hmd & Himg & Hgeo & _ & Hlen & Hother).
  apply write_frame_ret in Hw as [[Hne _] | (_ & _ & _ & Hs)];
    [contradiction |].
  destruct Hs as (md0 & imgs & _ & Hcp & Hb').
  rewrite buffer_to_write_to_eq in Hcp.
  set (slot := wrap64 (frame_cnt b + 1) mod BUFFER_COUNT) in *.
  pose proof (mod_count_range (wrap64 (frame_cnt b + 1))) as Hslot.
  fold slot in Hslot.
  assert (Hsz : buffer_image_size b' = buffer_image_size b)
    by now apply same_geometry_image_size.
  assert (Hroom' : 2 * buffer_image_size b <= Z.of_nat (length (images b))).
  { destruct pubs as [| q pubs]; [| now apply Hroom].
    simpl in Hcnt. unfold slot in Hcp. rewrite Hcnt in Hcp.
    change (wrap64 (wrap64 0 + 1) mod BUFFER_COUNT) with 1 in Hcp.
    rewrite image_size_once in Hcp. unfold memcpy_to in Hcp.
    destruct (decide _) as [[H1 _] | ?]; [| discriminate]. lia. }
  split.
  - rewrite Hc, Hcnt, wrap64_succ. f_equal. simpl. lia.
  - intros [| i] p; simpl.
    + intros [= <-]. simpl. rewrite Hc, Hcnt, wrap64_succ. f_equal. lia.
    + intros Hp. now rewrite (Huids _ _ Hp).
  - intros j md Hj Hlook. unfold slot_holds. simpl. unfold in_slot at 1.
    simpl. rewrite Hc. fold slot.
    destruct (Z.eqb_spec slot j) as [<- | Hne].
    + rewrite Hmd in Hlook. injection Hlook as <-. simpl.
      repeat split. exact Himg.
    + rewrite Hother in Hlook by lia.
      specialize (Hslots j md Hj Hlook). unfold slot_holds in Hslots.
      destruct (find (in_slot j) pubs) as [q |] eqn:Hfind; [| exact Hslots].
      destruct Hslots as (Hu & Ht & Hi). repeat split; try assumption.
      rewrite <- Hi. unfold slot_image. rewrite Hsz, Hb'. simpl.
      eapply memcpy_to_elsewhere; [exact Hcp |].
      rewrite !(slot_offset_exact _ _ _ (proj1 Hsize) Hroom' Hfits)
        by assumption.
      unfold BUFFER_COUNT in *.
      assert (j < slot \/ slot < j) as [? | ?] by lia; [left | right]; nia.
  - intros _. rewrite Hlen, Hsz. exact Hroom'.
  - now rewrite Hlen.
Qed.

Lemma run_calls_invariant calls :
  forall b pubs b' pubs',
    ring_invariant b pubs ->
    run_calls b pubs calls = Some (b', pubs') ->
    ring_invariant b' pubs'.
Proof.
  induction calls as [| c calls IH]; intros b pubs b' pubs' Hinv; simpl.
  - now intros [= <- <-].
  - destruct (write_frame b _ _ _ _ _) as [[code b1] | |] eqn:Hw;
      try discriminate.
    apply IH. destruct (Z.eqb_spec code SUCCESS) as [-> | Hne].
    + eapply ring_invariant_publish; eassumption.
    + apply write_frame_ret in Hw as [[_ ->] | [? _]];
        [exact Hinv | contradiction].
Qed.

Lemma publication_uid_range b pubs p :
  ring_invariant b pubs -> Z.of_nat (length pubs) < 2 ^ 64 -> p ∈ pubs ->
  1 <= pub_uid p <= Z.of_nat (length pubs).
Proof.
  intros Hinv Hk Hin. apply list_elem_of_lookup_1 in Hin as [i Hi].
  pose proof (lookup_lt_Some _ _ _ Hi).
  rewrite (ri_uids _ _ Hinv _ _ Hi), wrap64_small by lia. lia.
Qed.

(** ** What a slot holds *)

Lemma in_slot_same_uid slot p q :
  in_slot slot q = true -> pub_uid p = pub_uid q -> in_slot slot p = true.
Proof. unfold in_slot. now intros H ->. Qed.

(** A slot that was never written has uid 0; no publication carries uid 0
    while it stays unwritten. *)
Lemma unwritten_slot_no_uid_0 b pubs slot p :
  ring_invariant b pubs -> 0 <= slot < BUFFER_COUNT ->
  find (in_slot slot) pubs = None ->
  p ∈ pubs -> pub_uid p <> 0.
Proof.
  intros Hinv Hslot Hnone Hin Hzero.
  pose proof (find_none _ _ Hnone) as Hall.
  apply list_elem_of_lookup_1 in Hin as [i Hi].
  pose proof (lookup_lt_Some _ _ _ Hi) as Hlt.
  pose proof (ri_uids _ _ Hinv _ _ Hi) as Hu. rewrite Hzero in Hu.
  symmetry in Hu. apply wrap64_zero_large in Hu; [| lia].
  destruct (lookup_lt_is_Some_2 pubs (length pubs - Z.to_nat slot))
    as [q Hq].
  { unfold BUFFER_COUNT in *. destruct (Z.eq_dec slot 0) as [-> | ?].
    - exfalso. assert (Hf : in_slot 0 p = false).
      { apply Hall. apply list_elem_of_In. eapply list_elem_of_lookup_2, Hi. }
      unfold in_slot in Hf. rewrite Hzero in Hf. discriminate.
    - lia. }
  assert (Hf : in_slot slot q = false).
  { apply Hall. apply list_elem_of_In. eapply list_elem_of_lookup_2, Hq. }
  pose proof (ri_uids _ _ Hinv _ _ Hq) as Huq.
  unfold BUFFER_COUNT in *.
  assert (Hs0 : slot <> 0).
  { intros ->. assert (Hf0 : in_slot 0 p = false).
    { apply Hall. apply list_elem_of_In. eapply list_elem_of_lookup_2, Hi. }
    unfold in_slot in Hf0. rewrite Hzero in Hf0. discriminate. }
  replace (Z.of_nat (length pubs - (length pubs - Z.to_nat slot))) with slot
    in Huq by lia.
  rewrite wrap64_small in Huq by lia.
  unfold in_slot in Hf. rewrite Huq in Hf.
  assert (slot = 1 \/ slot = 2) as [-> | ->] by lia; discriminate.
Qed.

Lemma slot_publication b pubs slot md p :
  ring_invariant b pubs -> 0 <= slot < BUFFER_COUNT ->
  metadata b !! Z.to_nat slot = Some md ->
  published_as (frame_uid md) pubs = Some p ->
  acquisition_time md = pub_time p /\
  slot_image b slot = Some (pub_payload p).
Proof.
  intros Hinv Hslot Hmd Hpub.
  pose proof (ri_slots _ _ Hinv slot md Hslot Hmd) as Hholds.
  unfold slot_holds in Hholds. unfold published_as in Hpub.
  destruct (find (in_slot slot) pubs) as [q |] eqn:Hfind.
  - destruct Hholds as (Hu & Ht & Hi).
    assert (Hq : find (fun p => pub_uid p =? frame_uid md) pubs = Some q).
    { apply (find_refine (in_slot slot)); [exact Hfind | |].
      - rewrite Hu. apply Z.eqb_refl.
      - intros x Hx. apply Z.eqb_eq in Hx.
        apply find_some in Hfind as [_ Hqs].
        eapply in_slot_same_uid; [exact Hqs | congruence]. }
    rewrite Hq in Hpub. injection Hpub as <-. now split.
  - exfalso. apply find_some in Hpub as [Hin Hu]. apply Z.eqb_eq in Hu.
    apply (unwritten_slot_no_uid_0 b pubs slot p Hinv Hslot Hfind).
    + now apply list_elem_of_In.
    + congruence.
Qed.

(** Below 2^64 publications every uid was given once. *)
Lemma published_as_unique b pubs p :
  ring_invariant b pubs -> Z.of_nat (length pubs) < 2 ^ 64 ->
  p ∈ pubs -> published_as (pub_uid p) pubs = Some p.
Proof.
  intros Hinv Hk Hin. unfold published_as.
  destruct (find _ pubs) as [q |] eqn:Hfind.
  - apply find_some in Hfind as [Hq Hu]. apply Z.eqb_eq in Hu.
    apply list_elem_of_In, list_elem_of_lookup_1 in Hq as [j Hj].
    apply list_elem_of_lookup_1 in Hin as [i Hi].
    pose proof (lookup_lt_Some _ _ _ Hi). pose proof (lookup_lt_Some _ _ _ Hj).
    rewrite (ri_uids _ _ Hinv _ _ Hi), (ri_uids _ _ Hinv _ _ Hj) in Hu.
    rewrite !wrap64_small in Hu by lia.
    assert (i = j) as -> by lia. congruence.
  - exfalso. pose proof (find_none _ _ Hfind p) as Hf. simpl in Hf.
    rewrite Z.eqb_refl in Hf. discriminate Hf. now apply list_elem_of_In.
Qed.

(** The slot of a uid that has been published holds that uid or a later
    one. *)
Lemma slot_uid_at_least b pubs u md :
  ring_invariant b pubs -> Z.of_nat (length pubs) < 2 ^ 64 ->
  1 <= u <= Z.of_nat (length pubs) ->
  metadata b !! Z.to_nat (u mod BUFFER_COUNT) = Some md ->
  u <= frame_uid md.
Proof.
  intros Hinv Hk Hu Hmd.
  pose proof (ri_slots _ _ Hinv _ md (mod_count_range u) Hmd) as Hholds.
  unfold slot_holds in Hholds.
  destruct (lookup_lt_is_Some_2 pubs (length pubs - Z.to_nat u)) as [p Hp];
    [lia |].
  assert (Hpu : pub_uid p = u).
  { rewrite (ri_uids _ _ Hinv _ _ Hp), wrap64_small by lia. lia. }
  assert (Hps : in_slot (u mod BUFFER_COUNT) p = true).
  { unfold in_slot. rewrite Hpu. apply Z.eqb_refl. }
  destruct (find _ pubs) as [q |] eqn:Hfind.
  - destruct Hholds as (-> & _ & _).
    apply find_first in Hfind as (i & Hi & _ & Hbefore).
    pose proof (lookup_lt_Some _ _ _ Hi).
    rewrite (ri_uids _ _ Hinv _ _ Hi), wrap64_small by lia.
    destruct (decide (length pubs - Z.to_nat u < i)%nat) as [Hlt | ?]; [| lia].
    rewrite (Hbefore _ _ Hlt Hp) in Hps. discriminate.
  - pose proof (find_none _ _ Hfind p) as Hf. rewrite Hps in Hf.
    discriminate Hf. apply list_elem_of_In. eapply list_elem_of_lookup_2, Hp.
Qed.

(** ** Slot locks held by other threads *)







(** The producer's calls alone are a run without lock traffic. *)
Lemma run_calls_events calls :
  forall b pubs, run_events b pubs (map Publish calls) = run_calls b pubs calls.
Proof.
  induction calls as [| c calls IH]; intros b pubs; simpl; [reflexivity |].
  destruct (write_frame b _ _ _ _ _) as [[code b1] | |]; try reflexivity.
  apply IH.
Qed.







(** ** read_frame with nothing new *)

Lemma read_frame_caught_up uninit b frame wakes :
  is_alive b = true -> f_frame_uid frame = frame_cnt b ->
  read_frame uninit b frame false wakes
  = Ret (NO_NEW_FRAME, adopt_geometry uninit b frame).
Proof.
  intros Hal Hup. unfold read_frame, admission. cbn [adopt_geometry f_frame_uid].
  rewrite Hal, Hup, Z.eqb_refl. reflexivity.
Qed.

(** C5 (what the code does).  A non-blocking [read_frame] on an alive
    region by a caught-up consumer returns NO_NEW_FRAME and keeps the
    frame's uid and acquisition time, but by then it has already copied
    the region's geometry into the frame and resized the data buffer to
    the region's image size: the frame comes back unchanged only if it
    had that geometry and that buffer size before the call. *)
Theorem read_frame_no_new_frame_adopts_geometry :
  forall (uninit : nat -> Byte.byte) (b : buffer_t) (frame : frame_t)
         (wakes : list buffer_t),
    is_alive b = true ->
    f_frame_uid frame = frame_cnt b ->
    exists frame' : frame_t,
      read_frame uninit b frame false wakes = Ret (NO_NEW_FRAME, frame') /\
      f_frame_uid frame' = f_frame_uid frame /\
      f_acquisition_time frame' = f_acquisition_time frame /\
      (f_width frame', f_height frame', f_depth frame')
        = (width b, height b, depth b) /\
      length (f_data frame') = Z.to_nat (buffer_image_size b) /\
      (frame' = frame <->
         (f_width frame, f_height frame, f_depth frame)
           = (width b, height b, depth b) /\
         length (f_data frame) = Z.to_nat (buffer_image_size b)).
Proof.
  intros uninit b frame wakes Hal Hup.
  exists (adopt_geometry uninit b frame).
  split; [now apply read_frame_caught_up |].
  split; [reflexivity |]. split; [reflexivity |]. split; [reflexivity |].
  split; [apply length_realloc |].
  split.
  - intros H. rewrite <- H at 1 2 3 4. split; [reflexivity |].
    apply length_realloc.
  - intros [Hgeo Hlen]. injection Hgeo as Hw Hh Hd.
    destruct frame as [fw fh fd ft fu fdata]. simpl in *. subst fw fh fd.
    unfold adopt_geometry. simpl. f_equal.
    rewrite <- Hlen. apply realloc_same_size.
Qed.

Lemma read_frame_no_new_frame_adopts_geometry_witness :
  exists frame' : frame_t,
    read_frame uninit_aa cam new_frame false [] = Ret (NO_NEW_FRAME, frame') /\
    length (f_data new_frame) = 8%nat /\
    length (f_data frame') = 4%nat /\
    (f_width new_frame, f_height new_frame, f_depth new_frame) = (7, 7, 7) /\
    (f_width frame', f_height frame', f_depth frame') = (2, 2, 1) /\
    frame' <> new_frame.
Proof.
  destruct (read_frame_no_new_frame_adopts_geometry uninit_aa cam new_frame [])
    as (frame' & Hret & _ & _ & Hgeo & Hlen & Hsame).
  - reflexivity.
  - reflexivity.
  - exists frame'. split; [exact Hret |]. split; [reflexivity |].
    split; [exact Hlen |]. split; [reflexivity |]. split; [exact Hgeo |].
    intros Heq. apply Hsame in Heq as [Hg _]. discriminate Hg.
Defined.

(** ** read_frame after a wait *)

(** C7 (what the code does).  A consumer that has caught up with a
    region made by [create_block] (large enough for its three slots) on
    which k publishes were made (1 <= k < 2^64 - 1) calls
    [read_frame] with [block_thread] set and is woken while the region is
    still as it was (a spurious wake-up, or the broadcast of the frame it
    has just read).  The call does not test [frame_cnt] again: it returns
    SUCCESS with the content of slot [(k + 1) mod BUFFER_COUNT], whose uid
    is lower than the uid the frame held. *)
Theorem read_frame_woken_without_news_goes_back :
  forall (uninit : nat -> Byte.byte) (sizeof pid w h d : Z)
         (calls : list write_call) (b : buffer_t) (pubs : list publication)
         (frame : frame_t),
    0 <= sizeof ->
    sizeof + BUFFER_COUNT * wrap64 (wrap64 (w * h) * d) < 2 ^ 64 ->
    run_calls (created sizeof pid w h d) [] calls = Some (b, pubs) ->
    pubs <> [] ->
    Z.of_nat (length pubs) < 2 ^ 64 - 1 ->
    f_frame_uid frame = frame_cnt b ->
    exists frame' : frame_t,
      read_frame uninit b frame true [b] = Ret (SUCCESS, frame') /\
      f_frame_uid frame' < f_frame_uid frame.
Proof.
  intros uninit sizeof pid w h d calls b pubs frame Hs Hfit Hrun Hne Hk Hup.
  destruct (created_well_formed sizeof pid w h d Hs Hfit) as (Hwf0 & Hq0 & Hal0).
  destruct (run_calls_keeps _ _ _ _ _ Hrun) as (Hal & _ & Hwf & Hq).
  rewrite Hal0 in Hal. specialize (Hwf Hwf0). specialize (Hq Hq0).
  assert (Hinv : ring_invariant b pubs).
  { eapply run_calls_invariant; [| exact Hrun].
    now apply ring_invariant_created. }
  assert (Hcnt : frame_cnt b = Z.of_nat (length pubs)).
  { rewrite (ri_count _ _ Hinv). apply wrap64_small. lia. }
  assert (Hpos : 1 <= Z.of_nat (length pubs)).
  { destruct pubs; [contradiction | simpl; lia]. }
  set (target := target_buffer (frame_cnt b) (f_frame_uid frame)).
  pose proof (target_buffer_range (frame_cnt b) (f_frame_uid frame)) as Ht.
  fold target in Ht.
  destruct (well_formed_slot_lookup b target Hwf Ht) as [md Hmd].
  assert (Hfree : rwlock md = Unlocked).
  { unfold quiescent in Hq. rewrite Forall_forall in Hq. apply Hq.
    eapply list_elem_of_lookup_2, Hmd. }
  destruct (copy_out_succeeds b md target (adopt_geometry uninit b frame))
    as (frame' & Hc & Hu); try assumption.
  { apply frame_image_size_adopt. }
  { cbn [adopt_geometry f_data]. rewrite length_realloc.
    now rewrite frame_image_size_adopt. }
  exists frame'. split.
  - unfold read_frame, admission. cbn [adopt_geometry f_frame_uid].
    unfold target in Hmd, Hc. rewrite Hup in Hmd, Hc.
    rewrite Hal, Hup, Z.eqb_refl. cbn [negb acquire_read_lock].
    rewrite Hmd, Hfree. exact Hc.
  - rewrite Hu, Hup, Hcnt.
    assert (Htarget : target = (Z.of_nat (length pubs) + 1) mod BUFFER_COUNT).
    { unfold target. rewrite target_buffer_eq, Hup, Hcnt.
      rewrite target_frame_uid_eq by lia.
      rewrite (wrap64_small (Z.of_nat (length pubs) + 1)) by lia.
      destruct (Z.ltb_spec (Z.of_nat (length pubs)) BUFFER_COUNT);
        [reflexivity |].
      f_equal. unfold BUFFER_COUNT. lia. }
    pose proof (ri_slots _ _ Hinv target md Ht Hmd) as Hholds.
    unfold slot_holds in Hholds.
    destruct (find (in_slot target) pubs) as [q |] eqn:Hfind.
    + destruct Hholds as (-> & _ & _).
      apply find_some in Hfind as [Hin Hslot].
      apply list_elem_of_In in Hin.
      pose proof (publication_uid_range b pubs q Hinv ltac:(lia) Hin) as Hr.
      unfold in_slot in Hslot. apply Z.eqb_eq in Hslot.
      rewrite Htarget in Hslot.
      assert (pub_uid q <> Z.of_nat (length pubs)).
      { intros E. rewrite E in Hslot. unfold BUFFER_COUNT in Hslot.
        rewrite <- Z.add_mod_idemp_l in Hslot by lia.
        pose proof (Z.mod_pos_bound (Z.of_nat (length pubs)) 3 ltac:(lia)).
        assert (Z.of_nat (length pubs) mod 3 = 0
                \/ Z.of_nat (length pubs) mod 3 = 1
                \/ Z.of_nat (length pubs) mod 3 = 2) as [E3 | [E3 | E3]]
          by lia; rewrite E3 in Hslot; discriminate. }
      lia.
    + rewrite Hholds. lia.
Qed.

Lemma read_frame_woken_without_news_goes_back_witness :
  exists frame' : frame_t,
    read_frame uninit_aa (cam_after 1) (seen 1 Byte.x01) true [cam_after 1]
      = Ret (SUCCESS, frame') /\
    f_frame_uid frame' < f_frame_uid (seen 1 Byte.x01).
Proof.
  apply (read_frame_woken_without_news_goes_back uninit_aa sizeof_example
           100 2 2 1 (take 1 reel) (cam_after 1) (pubs_after 1)).
  - vm_compute. discriminate.
  - vm_compute. reflexivity.
  - vm_compute. reflexivity.
  - vm_compute. discriminate.
  - vm_compute. reflexivity.
  - reflexivity.
Defined.

(** The run behind it: the producer has published frame 1 and not yet
    broadcast; the consumer reads uid 1, calls again and waits, is woken
    by that broadcast, and is handed the never-written slot 2 as uid 0.
    In steady state the same wake-up turns uid 5 into uid 3. *)
Example stale_wakeup_trace :
  read_frame uninit_aa (cam_after 1) new_frame true []
    = Ret (SUCCESS, seen 1 Byte.x01) /\
  read_frame uninit_aa (cam_after 1) (seen 1 Byte.x01) true [cam_after 1]
    = Ret (SUCCESS,
           {| f_width := 2; f_height := 2; f_depth := 1;
              f_acquisition_time := 0; f_frame_uid := 0;
              f_data := solid Byte.x00 |}) /\
  read_frame uninit_aa (cam_after 5) (seen 5 Byte.x05) true [cam_after 5]
    = Ret (SUCCESS, seen 3 Byte.x03).
Proof. split; [| split]; vm_compute; reflexivity. Qed.

(** The other side of C7: a consumer's uid goes up whenever the state in
    which [read_frame] takes the read lock holds a frame newer than the
    consumer's, that is, when the call does not wait for news, or every
    wake-up follows a publish the consumer has not seen. *)
Lemma read_frame_with_news_moves_forward
    (uninit : nat -> Byte.byte) (sizeof pid w h d : Z)
    (calls : list write_call) (b : buffer_t) (pubs : list publication)
    (frame : frame_t) (block_thread : bool) (wakes : list buffer_t)
    (frame' : frame_t) :
  0 <= sizeof ->
  run_calls (created sizeof pid w h d) [] calls = Some (b, pubs) ->
  Z.of_nat (length pubs) < 2 ^ 64 ->
  0 <= f_frame_uid frame <= frame_cnt b ->
  Forall (fun x => exists more pubs_x,
              run_calls b pubs more = Some (x, pubs_x) /\
              f_frame_uid frame < Z.of_nat (length pubs_x) < 2 ^ 64) wakes ->
  read_frame uninit b frame block_thread wakes = Ret (SUCCESS, frame') ->
  f_frame_uid frame < f_frame_uid frame'.
Proof.
  intros Hs Hrun Hk Hlast Hwakes Hread.
  assert (Hinv : ring_invariant b pubs).
  { eapply run_calls_invariant; [| exact Hrun].
    now apply ring_invariant_created. }
  assert (Hcnt : frame_cnt b = Z.of_nat (length pubs)).
  { rewrite (ri_count _ _ Hinv). apply wrap64_small. lia. }
  apply read_frame_success in Hread as (b_r & md & Ha & Hc).
  pose proof (admission_inr_source _ _ _ _ _ _ Ha) as Hsrc.
  apply admission_inr in Ha as (_ & _ & _ & Hmd).
  apply copy_out_ret in Hc as (_ & Huid & _).
  2:{ cbn [adopt_geometry f_data]. now rewrite length_realloc. }
  rewrite Huid. clear Huid frame'.
  set (last := f_frame_uid frame) in *.
  assert (Hstate : exists pubs_r,
             ring_invariant b_r pubs_r /\
             Z.of_nat (length pubs) <= Z.of_nat (length pubs_r) /\
             last < Z.of_nat (length pubs_r) < 2 ^ 64).
  { destruct Hsrc as [[Hne ->] | Hin].
    - exists pubs. split; [exact Hinv |]. lia.
    - rewrite Forall_forall in Hwakes.
      destruct (Hwakes _ Hin) as (more & pubs_r & Hmore & Hnews).
      exists pubs_r. split; [eapply run_calls_invariant; eassumption |].
      apply run_calls_grows in Hmore. lia. }
  destruct Hstate as (pubs_r & Hinv_r & Hgrow & Hnews).
  rewrite target_buffer_eq in Hmd.
  assert (Ht : last + 1 <= target_frame_uid (frame_cnt b) last
               <= Z.of_nat (length pubs_r)).
  { rewrite target_frame_uid_eq by lia.
    rewrite (wrap64_small (last + 1)) by lia.
    destruct (Z.ltb_spec (frame_cnt b) BUFFER_COUNT); unfold BUFFER_COUNT in *;
      lia. }
  pose proof (slot_uid_at_least b_r pubs_r
                (target_frame_uid (frame_cnt b) last) md Hinv_r
                ltac:(lia) ltac:(lia) Hmd).
  lia.
Qed.

(** A consumer that starts at uid 0 after three publishes reads uids 1,
    2 and 3 in order and is then told there is nothing new. *)
Example basic_stream :
  read_frame uninit_aa (cam_after 3) new_frame false []
    = Ret (SUCCESS, seen 1 Byte.x01) /\
  read_frame uninit_aa (cam_after 3) (seen 1 Byte.x01) false []
    = Ret (SUCCESS, seen 2 Byte.x02) /\
  read_frame uninit_aa (cam_after 3) (seen 2 Byte.x02) false []
    = Ret (SUCCESS, seen 3 Byte.x03) /\
  read_frame uninit_aa (cam_after 3) (seen 3 Byte.x03) false []
    = Ret (NO_NEW_FRAME, seen 3 Byte.x03).
Proof. repeat split; vm_compute; reflexivity. Qed.

(** With a wake-up that follows a new publish the same calls move on. *)
Example fresh_wakeup_trace :
  read_frame uninit_aa (cam_after 1) (seen 1 Byte.x01) true [cam_after 2]
    = Ret (SUCCESS, seen 2 Byte.x02) /\
  read_frame uninit_aa (cam_after 5) (seen 5 Byte.x05) true [cam_after 7]
    = Ret (SUCCESS, seen 6 Byte.x06) /\
  read_frame uninit_aa (cam_after 7) new_frame false []
    = Ret (SUCCESS, seen 5 Byte.x05).
Proof. split; [| split]; vm_compute; reflexivity. Qed.

(** ** Inspection predicates *)

Lemma kill_spec w p : kill w p <> 0 <-> p ∉ w_procs w.
Proof.
  unfold kill. destruct (decide (p ∈ w_procs w)) as [Hin | Hout].
  - split; [intros H; now contradict H | intros H; contradiction].
  - split; [intros _; exact Hout | intros _; discriminate].
Qed.

(** C8.  On a valid handle [block_is_alive] returns the region's
    [is_alive] flag, and [block_is_poisoned] returns true exactly when the
    flag is true and the null-signal probe [kill(owner, 0)] fails, that is,
    when the owner is not among the processes the signal reaches. *)
Theorem inspection_predicates :
  forall (w : world) (block : option block_t) (obj : nat) (b : buffer_t),
    deref w block = Ret (obj, b) ->
    block_is_alive w block = Ret (is_alive b) /\
    exists (r : bool) (w' : world),
      block_is_poisoned w block = Ret (r, w') /\
      (r = true <-> is_alive b = true /\ kill w (owner b) <> 0) /\
      (kill w (owner b) <> 0 <-> owner b ∉ w_procs w).
Proof.
  intros w block obj b Hd. split.
  - unfold block_is_alive. rewrite Hd. reflexivity.
  - unfold block_is_poisoned. rewrite Hd.
    eexists _, _. split; [reflexivity |]. split; [| apply kill_spec].
    destruct (Z.eqb_spec (kill w (owner b)) 0) as [E | E]; simpl.
    + split; [discriminate | intros [_ H]; contradiction].
    + split; [intros H; now split | intros [H _]; exact H].
Qed.

Lemma inspection_predicates_witness :
  block_is_alive visitor visitor_block = Ret (is_alive cam) /\
  exists (r : bool) (w' : world),
    block_is_poisoned visitor visitor_block = Ret (r, w') /\
    (r = true <-> is_alive cam = true /\ kill visitor (owner cam) <> 0) /\
    (kill visitor (owner cam) <> 0 <-> owner cam ∉ w_procs visitor).
Proof.
  apply (inspection_predicates visitor visitor_block 0%nat cam).
  vm_compute. reflexivity.
Defined.

(** The owner has exited without destroying the region: the region is
    alive and poisoned. *)
Example orphaned_region_is_poisoned :
  block_is_alive (without_process 100 visitor) visitor_block = Ret true /\
  exists w', block_is_poisoned (without_process 100 visitor) visitor_block
             = Ret (true, w').
Proof. split; [| eexists]; vm_compute; reflexivity. Qed.

(** ** Name-indexed predicates *)

Lemma open_block_result w direction :
  (open_block w direction).2 <> None <->
  contains_slash direction = false /\
  is_Some (w_files w !! (BLOCK_DIR +:+ direction)).
Proof.
  unfold open_block, file_address_from_direction.
  destruct (contains_slash direction); simpl.
  - split; [intros H; now contradict H | intros [H _]; discriminate].
  - destruct (w_files w !! (BLOCK_DIR +:+ direction)) as [obj |] eqn:E; simpl.
    + split; [intros _; split; [reflexivity | now exists obj] | discriminate].
    + split; [intros H; now contradict H | intros [_ [x Hx]]; discriminate].
Qed.

Lemma open_block_handle w direction blk :
  (open_block w direction).2 = Some blk ->
  exists obj, w_mapped (open_block w direction).1 !! buffer blk = Some obj.
Proof.
  unfold open_block, file_address_from_direction.
  destruct (contains_slash direction); simpl; [discriminate |].
  destruct (w_files w !! (BLOCK_DIR +:+ direction)) as [obj |]; simpl;
    [| discriminate].
  intros [= <-]. exists obj. simpl. apply lookup_insert_eq.
Qed.

Lemma deref_open_not_null w direction blk :
  (open_block w direction).2 = Some blk ->
  deref (open_block w direction).1 (Some blk) <> Fault NullDeref.
Proof.
  intros H. destruct (open_block_handle _ _ _ H) as [obj Hobj].
  unfold deref. rewrite Hobj.
  destruct (w_objects _ !! obj); discriminate.
Qed.

(** C10.  [cstr_block_is_alive] and [cstr_block_is_poisoned] pass the
    result of [open_block] on without a null check: each of them
    dereferences a null handle exactly when [open_block] returns NULL, and
    [open_block] returns a handle exactly when the name has no "/" and a
    backing file of that name exists. *)
Theorem cstr_predicates_null_dereference :
  forall (w : world) (direction : string),
    ((open_block w direction).2 <> None <->
       contains_slash direction = false /\
       is_Some (w_files w !! (BLOCK_DIR +:+ direction))) /\
    (cstr_block_is_alive w direction = Fault NullDeref <->
       (open_block w direction).2 = None) /\
    (cstr_block_is_poisoned w direction = Fault NullDeref <->
       (open_block w direction).2 = None).
Proof.
  intros w direction. split; [apply open_block_result |].
  unfold cstr_block_is_alive, cstr_block_is_poisoned.
  pose proof (deref_open_not_null w direction) as Hnn.
  destruct (open_block w direction) as [w1 [blk |]]; simpl in *.
  - specialize (Hnn blk eq_refl).
    unfold block_is_alive, block_is_poisoned, close_block.
    destruct (deref w1 (Some blk)) as [[obj b] | | e] eqn:Hd.
    + split; (split; [| discriminate]).
      * destruct (owner b =? w_pid w1); discriminate.
      * set (p := negb (kill w1 (owner b) =? 0) && is_alive b).
        assert (Hd' : forall m, deref (if p then fprintf_stderr w1 m else w1)
                                  (Some blk) = Ret (obj, b)).
        { intros m. destruct p; exact Hd. }
        rewrite Hd'.
        destruct (owner b =? w_pid _); simpl; discriminate.
    + split; (split; discriminate).
    + split; (split; [intros [= ->]; now contradict Hnn | discriminate]).
  - split; (split; reflexivity).
Qed.

Example cstr_block_is_alive_on_missing_name :
  cstr_block_is_alive boot "cam" = Fault NullDeref /\
  cstr_block_is_poisoned boot "cam" = Fault NullDeref /\
  cstr_block_is_alive studio "a/b" = Fault NullDeref /\
  exists w', cstr_block_is_alive (as_process 200 studio) "cam" = Ret (true, w').
Proof.
  split; [| split; [| split; [| eexists]]]; vm_compute; reflexivity.
Qed.

(** ** destroy_block *)

Ltac world_fields :=
  cbn [w_pid w_procs w_files w_objects w_mapped w_next w_stderr w_sys
       fprintf_stderr set_files set_objects set_mapped Z.eqb negb fst snd].

Lemma string_length_app (s t : string) :
  String.length (s +:+ t) = (String.length s + String.length t)%nat.
Proof. induction s as [| c s IH]; simpl; [reflexivity | now rewrite IH]. Qed.

Lemma archive_name_differs (s : string) : s +:+ archived <> s.
Proof.
  intros H. apply (f_equal String.length) in H.
  rewrite string_length_app in H. simpl in H. lia.
Qed.

(** C4 (what the code does).  A caller that is not the owner, on a region
    that is alive and whose owner still answers the null signal, gets the
    diagnostic and then the whole destroy sequence all the same: the
    region's [is_alive] becomes false, the handle's mapping is released,
    and neither the backing name nor the archive name exists afterwards. *)
Theorem destroy_block_by_stranger_destroys :
  forall (w : world) (blk : block_t) (obj : nat) (b : buffer_t),
    deref w (Some blk) = Ret (obj, b) ->
    w_pid w <> owner b ->
    is_alive b = true ->
    kill w (owner b) = 0 ->
    block_is_poisoned w (Some blk) = Ret (false, w) /\
    exists w' : world,
      destroy_block w (Some blk) = Ret w' /\
      "Current process cannot free unpoisoned block."%string ∈ w_stderr w' /\
      w_objects w' !! obj = Some (kill_buffer b) /\
      w_mapped w' !! buffer blk = None /\
      w_files w' !! filename blk = None /\
      w_files w' !! (filename blk +:+ archived) = None.
Proof.
  intros w blk obj b Hd Hpid Halive Hkill.
  assert (Hp : block_is_poisoned w (Some blk) = Ret (false, w)).
  { unfold block_is_poisoned. rewrite Hd, Hkill. reflexivity. }
  split; [exact Hp |].
  unfold destroy_block. rewrite Hd, Hp.
  destruct (Z.eqb_spec (w_pid w) (owner b)) as [? | _]; [contradiction |].
  cbn [negb andb]. unfold rename. world_fields.
  destruct (w_files w !! filename blk) as [o |] eqn:Hf.
  - eexists. split; [reflexivity |]. world_fields.
    repeat split.
    + apply elem_of_app; right. constructor.
    + apply lookup_insert_eq.
    + apply lookup_delete_eq.
    + rewrite lookup_delete_ne by apply archive_name_differs.
      rewrite lookup_insert_ne by apply archive_name_differs.
      apply lookup_delete_eq.
    + apply lookup_delete_eq.
  - eexists. split; [reflexivity |]. world_fields.
    repeat split.
    + apply elem_of_app; left. apply elem_of_app; right. constructor.
    + apply lookup_insert_eq.
    + apply lookup_delete_eq.
    + rewrite lookup_delete_ne by apply archive_name_differs. exact Hf.
    + apply lookup_delete_eq.
Qed.

Lemma destroy_block_by_stranger_destroys_witness :
  block_is_poisoned visitor visitor_block = Ret (false, visitor) /\
  exists w' : world,
    destroy_block visitor visitor_block = Ret w' /\
    "Current process cannot free unpoisoned block."%string ∈ w_stderr w' /\
    w_objects w' !! 0%nat = Some (kill_buffer cam) /\
    w_mapped w' !! 1%nat = None /\
    w_files w' !! "/dev/shm/buffer-cam"%string = None /\
    w_files w' !! ("/dev/shm/buffer-cam" +:+ archived) = None.
Proof.
  apply (destroy_block_by_stranger_destroys visitor
           {| filename := "/dev/shm/buffer-cam"; buffer := 1%nat |} 0%nat cam).
  - vm_compute. reflexivity.
  - vm_compute. discriminate.
  - reflexivity.
  - vm_compute. reflexivity.
Defined.

(** * Further properties of the code *)

(** ** Names *)

Lemma string_app_assoc (a b c : string) : (a +:+ b) +:+ c = a +:+ (b +:+ c).
Proof.
  induction a as [| x a IH]; [reflexivity |].
  change (String x ((a +:+ b) +:+ c) = String x (a +:+ (b +:+ c))).
  now rewrite IH.
Qed.

Lemma contains_slash_app (a b : string) :
  contains_slash (a +:+ b) = contains_slash a || contains_slash b.
Proof.
  induction a as [| x a IH]; [reflexivity |].
  change (Ascii.eqb x "/"%char || contains_slash (a +:+ b)
          = Ascii.eqb x "/"%char || contains_slash a || contains_slash b).
  rewrite IH. apply orb_assoc.
Qed.

Lemma file_address_result w direction :
  (file_address_from_direction w direction).2 =
    if contains_slash direction then None else Some (BLOCK_DIR +:+ direction).
Proof.
  unfold file_address_from_direction. now destruct (contains_slash direction).
Qed.

(** X1.  [file_address_from_direction] gives distinct directions distinct
    backing files, and the file name it builds has exactly
    [strlen(direction) + strlen(BLOCK_DIR)] characters, one less than the
    bytes it allocates. *)
Theorem file_address_from_direction_injective :
  forall (w1 w2 : world) (d1 d2 : string) (f : string),
    (file_address_from_direction w1 d1).2 = Some f ->
    (file_address_from_direction w2 d2).2 = Some f ->
    d1 = d2 /\
    String.length f = (String.length d1 + String.length BLOCK_DIR)%nat.
Proof.
  intros w1 w2 d1 d2 f H1 H2. rewrite file_address_result in H1, H2.
  destruct (contains_slash d1); [discriminate |].
  destruct (contains_slash d2); [discriminate |].
  injection H1 as <-. injection H2 as H2. split.
  - symmetry. eapply String.app_inj, H2.
  - rewrite string_length_app. lia.
Qed.

Lemma file_address_from_direction_injective_witness :
  "cam"%string = "cam"%string /\
  String.length "/dev/shm/buffer-cam"
    = (String.length "cam" + String.length BLOCK_DIR)%nat.
Proof.
  apply (file_address_from_direction_injective boot studio "cam" "cam"
           "/dev/shm/buffer-cam"); reflexivity.
Defined.

(** ** create_block and open_block *)

(** X2.  [create_block] returns NULL exactly when the name holds a "/",
    its backing file exists already, [open] fails or [ftruncate] fails;
    past these it crashes exactly when [mmap] fails (line 239 writes
    through MAP_FAILED), and it never waits.  A call that returns NULL has
    printed one diagnostic and touched no region and no mapping.  It has
    touched no name either unless it was [ftruncate] that failed: then the
    empty file made by [open] stays behind under the name, so that every
    later [create_block] of that direction returns NULL. *)
Theorem create_block_refusal :
  forall (sizeof : Z) (w : world) (direction : string) (width height depth : Z),
    let name := BLOCK_DIR +:+ direction in
    let bytes_needed := buffer_size sizeof width height depth in
    let early :=
      contains_slash direction = true \/ is_Some (w_files w !! name) \/
      open_fails (w_sys w) name = true in
    ((exists w' : world,
         create_block sizeof w direction width height depth = Ret (w', None))
     <-> early \/ ftruncate_fails (w_sys w) bytes_needed = true) /\
    ((exists e : fault,
         create_block sizeof w direction width height depth = Fault e)
     <-> ~ early /\ ftruncate_fails (w_sys w) bytes_needed = false /\
         mmap_fails (w_sys w) bytes_needed = true) /\
    create_block sizeof w direction width height depth <> Blocked /\
    (forall w' : world,
        create_block sizeof w direction width height depth = Ret (w', None) ->
        w_objects w' = w_objects w /\ w_mapped w' = w_mapped w /\
        (exists msg : string, w_stderr w' = w_stderr w ++ [msg]) /\
        (early -> w_files w' = w_files w /\ w_next w' = w_next w) /\
        (~ early ->
         w_files w' = <[name := w_next w]> (w_files w) /\
         forall width' height' depth' : Z,
         exists w'' : world,
           create_block sizeof w' direction width' height' depth'
           = Ret (w'', None))).
Proof.
  intros sizeof w direction width height depth name bytes_needed early.
  unfold create_block, file_address_from_direction.
  fold name bytes_needed.
  destruct (contains_slash direction) eqn:Hslash.
  { assert (He : early) by (now left).
    split; [split; [intros _; now left | intros _; now eexists] |].
    split; [split; [intros [e He']; discriminate | intros [Hn _]; tauto] |].
    split; [discriminate |].
    intros w' [= <-]. world_fields.
    split; [reflexivity |]. split; [reflexivity |]. split; [now eexists |].
    split; [intros _; now split | tauto]. }
  destruct (decide (is_Some (w_files w !! name))) as [Hex | Hfree].
  { assert (He : early) by (right; now left).
    split; [split; [intros _; now left | intros _; now eexists] |].
    split; [split; [intros [e He']; discriminate | intros [Hn _]; tauto] |].
    split; [discriminate |].
    intros w' [= <-]. world_fields.
    split; [reflexivity |]. split; [reflexivity |]. split; [now eexists |].
    split; [intros _; now split | tauto]. }
  cbv zeta. fold name bytes_needed.
  destruct (open_fails (w_sys w) name) eqn:Hopen.
  { assert (He : early) by (right; now right).
    split; [split; [intros _; now left | intros _; now eexists] |].
    split; [split; [intros [e He']; discriminate | intros [Hn _]; tauto] |].
    split; [discriminate |].
    intros w' [= <-]. world_fields.
    split; [reflexivity |]. split; [reflexivity |]. split; [now eexists |].
    split; [intros _; now split | tauto]. }
  assert (He : ~ early).
  { intros [? | [? | ?]]; [discriminate | contradiction | discriminate]. }
  destruct (ftruncate_fails (w_sys w) bytes_needed) eqn:Htrunc.
  { split; [split; [intros _; now right | intros _; now eexists] |].
    split; [split; [intros [e He']; discriminate
                   | intros (_ & ? & _); discriminate] |].
    split; [discriminate |].
    intros w' [= <-]. world_fields.
    split; [reflexivity |]. split; [reflexivity |].
    split; [now eexists |]. split; [tauto |].
    intros _. split; [reflexivity |].
    intros width' height' depth'.
    world_fields.
    destruct (decide _) as [_ | Hn]; [now eexists |].
    exfalso. apply Hn. rewrite lookup_insert_eq. now eexists. }
  destruct (mmap_fails (w_sys w) bytes_needed) eqn:Hmap.
  { split; [split; [intros [w' Hw']; discriminate
                   | intros [? | ?]; [tauto | discriminate]] |].
    split; [split; [intros _; now repeat split | intros _; now eexists] |].
    split; [discriminate |].
    intros w' Hw'. discriminate. }
  split; [split; [intros [w' Hw']; discriminate
                 | intros [? | ?]; [tauto | discriminate]] |].
  split; [split; [intros [e He']; discriminate
                 | intros (_ & _ & ?); discriminate] |].
  split; [discriminate |].
  intros w' Hw'. discriminate.
Qed.

Lemma create_block_refusal_witness :
  exists w' : world,
    create_block sizeof_example boot "wide" (2 ^ 62) 2 3 = Ret (w', None) /\
    w_objects w' = w_objects boot /\ w_mapped w' = w_mapped boot /\
    w_stderr w'
      = ["Failed to truncate the file to the desired length."%string] /\
    w_files w' = <[("/dev/shm/buffer-wide")%string := 0%nat]> (w_files boot) /\
    exists w'' : world,
      create_block sizeof_example w' "wide" 2 2 1 = Ret (w'', None).
Proof.
  destruct (create_block_refusal sizeof_example boot "wide" (2 ^ 62) 2 3)
    as (Hnull & _ & _ & Heffect).
  destruct (proj2 Hnull) as [w' Hw'].
  { right. vm_compute. reflexivity. }
  exists w'. split; [exact Hw' |].
  destruct (Heffect w' Hw') as (Hobj & Hmap & _ & _ & Hlate).
  split; [exact Hobj |]. split; [exact Hmap |].
  split.
  { vm_compute in Hw'. injection Hw' as <-. reflexivity. }
  destruct Hlate as [Hfiles Hretry].
  { intros [H | [[x H] | H]]; vm_compute in H; discriminate. }
  split; [exact Hfiles |]. apply Hretry.
Defined.

(** X3.  A region created under a name can be opened under that name by
    any process that sees the same names and regions: the handle leads to
    the region in its initial state, owned by the creator, and opening
    changes neither names nor regions. *)
Theorem created_region_can_be_opened :
  forall (sizeof : Z) (w : world) (direction : string) (width height depth : Z)
         (w1 : world) (blk : block_t) (v : world),
    create_block sizeof w direction width height depth = Ret (w1, Some blk) ->
    w_files v = w_files w1 ->
    w_objects v = w_objects w1 ->
    exists blk2 : block_t,
      (open_block v direction).2 = Some blk2 /\
      filename blk2 = filename blk /\
      deref (open_block v direction).1 (Some blk2)
        = Ret (w_next w, created sizeof (w_pid w) width height depth) /\
      deref w1 (Some blk)
        = Ret (w_next w, created sizeof (w_pid w) width height depth) /\
      w_files (open_block v direction).1 = w_files v /\
      w_objects (open_block v direction).1 = w_objects v /\
      w_stderr (open_block v direction).1 = w_stderr v.
Proof.
  intros sizeof w direction width height depth w1 blk v Hc Hf Ho.
  apply create_block_handle in Hc as (Hslash & _ & -> & ->).
  unfold open_block, file_address_from_direction. rewrite Hslash.
  world_fields. simpl in Hf, Ho.
  rewrite Hf, lookup_insert_eq. simpl.
  eexists. split; [reflexivity |]. split; [reflexivity |].
  unfold deref. world_fields. cbn [buffer].
  rewrite !lookup_insert_eq, Ho, lookup_insert_eq.
  repeat split; assumption.
Qed.

Lemma created_region_can_be_opened_witness :
  exists blk2 : block_t,
    (open_block (as_process 200 studio) "cam").2 = Some blk2 /\
    filename blk2 = "/dev/shm/buffer-cam"%string /\
    deref (open_block (as_process 200 studio) "cam").1 (Some blk2)
      = Ret (0%nat, created sizeof_example 100 2 2 1) /\
    deref studio (Some {| filename := "/dev/shm/buffer-cam"; buffer := 0 |})
      = Ret (0%nat, created sizeof_example 100 2 2 1) /\
    w_files (open_block (as_process 200 studio) "cam").1
      = w_files (as_process 200 studio) /\
    w_objects (open_block (as_process 200 studio) "cam").1
      = w_objects (as_process 200 studio) /\
    w_stderr (open_block (as_process 200 studio) "cam").1
      = w_stderr (as_process 200 studio).
Proof.
  apply (created_region_can_be_opened sizeof_example boot "cam" 2 2 1 studio
           {| filename := "/dev/shm/buffer-cam"; buffer := 0 |}
           (as_process 200 studio)).
  - reflexivity.
  - reflexivity.
  - reflexivity.
Defined.

(** X4.  When [open_block] returns NULL it has printed one diagnostic and
    mapped nothing: names, regions and mappings are as they were. *)
Theorem open_block_refusal :
  forall (w : world) (direction : string),
    (open_block w direction).2 = None ->
    w_files (open_block w direction).1 = w_files w /\
    w_objects (open_block w direction).1 = w_objects w /\
    w_mapped (open_block w direction).1 = w_mapped w /\
    w_next (open_block w direction).1 = w_next w /\
    exists msg : string,
      w_stderr (open_block w direction).1 = w_stderr w ++ [msg].
Proof.
  intros w direction. unfold open_block, file_address_from_direction.
  destruct (contains_slash direction); simpl.
  - intros _. repeat split. now eexists.
  - destruct (w_files w !! (BLOCK_DIR +:+ direction)); simpl; [discriminate |].
    intros _. repeat split. now eexists.
Qed.

Lemma open_block_refusal_witness :
  w_files (open_block studio "tv").1 = w_files studio /\
  w_objects (open_block studio "tv").1 = w_objects studio /\
  w_mapped (open_block studio "tv").1 = w_mapped studio /\
  w_next (open_block studio "tv").1 = w_next studio /\
  exists msg : string,
    w_stderr (open_block studio "tv").1 = w_stderr studio ++ [msg].
Proof.
  apply (open_block_refusal studio "tv"). vm_compute. reflexivity.
Defined.

(** ** destroy_block *)

Lemma destroy_block_result w blk obj b :
  deref w (Some blk) = Ret (obj, b) ->
  exists w' : world,
    destroy_block w (Some blk) = Ret w' /\
    w_objects w' = <[obj := kill_buffer b]> (w_objects w) /\
    w_mapped w' = delete (buffer blk) (w_mapped w) /\
    w_files w' = delete (filename blk +:+ archived)
                   (match w_files w !! filename blk with
                    | Some o => <[filename blk +:+ archived := o]>
                                  (delete (filename blk) (w_files w))
                    | None => w_files w
                    end) /\
    w_pid w' = w_pid w /\ w_procs w' = w_procs w /\ w_next w' = w_next w /\
    w_sys w' = w_sys w.
Proof.
  intros Hd. unfold destroy_block, block_is_poisoned. rewrite Hd.
  cbv zeta. unfold rename.
  set (p := negb (kill w (owner b) =? 0) && is_alive b).
  set (q := negb (w_pid w =? owner b) && negb p).
  destruct p, q; world_fields;
    destruct (w_files w !! filename blk); world_fields;
    (eexists; split; [reflexivity |]; world_fields; repeat split).
Qed.





(** X7.  The archive name of direction [d] is the backing file name of
    direction [d ++ archived], a name without "/" that [create_block] and
    [open_block] accept.  [destroy_block] on the handle of [d] therefore
    also removes the backing file of that other direction, if there is
    one: [open_block] on it returns NULL afterwards. *)
Theorem destroy_block_removes_archive_namesake :
  forall (w : world) (blk : block_t) (obj : nat) (b : buffer_t)
         (direction : string),
    deref w (Some blk) = Ret (obj, b) ->
    filename blk = BLOCK_DIR +:+ direction ->
    contains_slash direction = false ->
    contains_slash (direction +:+ archived) = false /\
    (file_address_from_direction w (direction +:+ archived)).2
      = Some (filename blk +:+ archived) /\
    exists w' : world,
      destroy_block w (Some blk) = Ret w' /\
      (open_block w' (direction +:+ archived)).2 = None.
Proof.
  intros w blk obj b direction Hd Hname Hslash.
  assert (Hs2 : contains_slash (direction +:+ archived) = false).
  { rewrite contains_slash_app, Hslash. reflexivity. }
  split; [exact Hs2 |]. split.
  { rewrite file_address_result, Hs2, Hname. now rewrite string_app_assoc. }
  destruct (destroy_block_result w blk obj b Hd)
    as (w' & Hret & _ & _ & Hfiles & _).
  exists w'. split; [exact Hret |].
  destruct (open_block w' (direction +:+ archived)).2 eqn:Ho; [| reflexivity].
  exfalso.
  assert (Hsome : (open_block w' (direction +:+ archived)).2 <> None)
    by congruence.
  apply open_block_result in Hsome as [_ [x Hx]].
  rewrite <- string_app_assoc, <- Hname, Hfiles, lookup_delete_eq in Hx.
  discriminate.
Qed.

Lemma destroy_block_removes_archive_namesake_witness :
  (open_block two_studios cam_archive_name).2 <> None /\
  contains_slash ("cam" +:+ archived) = false /\
  (file_address_from_direction two_studios ("cam" +:+ archived)).2
    = Some ("/dev/shm/buffer-cam" +:+ archived) /\
  exists w' : world,
    destroy_block two_studios studio_block = Ret w' /\
    (open_block w' ("cam" +:+ archived)).2 = None.
Proof.
  split; [vm_compute; discriminate |].
  apply (destroy_block_removes_archive_namesake two_studios
           {| filename := "/dev/shm/buffer-cam"; buffer := 0 |} 0%nat cam
           "cam").
  - vm_compute. reflexivity.
  - reflexivity.
  - reflexivity.
Defined.

(** ** The name-indexed predicates on an existing region *)

Lemma open_block_existing w direction obj :
  contains_slash direction = false ->
  w_files w !! (BLOCK_DIR +:+ direction) = Some obj ->
  open_block w direction
  = (set_mapped w (<[w_next w := obj]> (w_mapped w)) (S (w_next w)),
     Some {| filename := BLOCK_DIR +:+ direction; buffer := w_next w |}).
Proof.
  intros Hs Hf. unfold open_block, file_address_from_direction.
  rewrite Hs, Hf. reflexivity.
Qed.

(** X8.  On a name whose region exists, [cstr_block_is_alive] returns the
    region's [is_alive] flag and [cstr_block_is_poisoned] the value of
    [block_is_poisoned].  Neither changes a name or a region, but the
    mapping made by [open_block] is still there afterwards ([close_block]
    unmaps nothing), and a caller that owns the region gets the diagnostic
    of [close_block]. *)
Theorem cstr_predicates_on_existing_region :
  forall (w : world) (direction : string) (obj : nat) (b : buffer_t),
    contains_slash direction = false ->
    w_files w !! (BLOCK_DIR +:+ direction) = Some obj ->
    w_objects w !! obj = Some b ->
    (exists w' : world,
        cstr_block_is_alive w direction = Ret (is_alive b, w') /\
        w_files w' = w_files w /\ w_objects w' = w_objects w /\
        w_mapped w' = <[w_next w := obj]> (w_mapped w) /\
        (owner b <> w_pid w -> w_stderr w' = w_stderr w) /\
        (owner b = w_pid w -> exists msg, w_stderr w' = w_stderr w ++ [msg])) /\
    (exists w' : world,
        cstr_block_is_poisoned w direction
          = Ret (negb (kill w (owner b) =? 0) && is_alive b, w') /\
        w_files w' = w_files w /\ w_objects w' = w_objects w /\
        w_mapped w' = <[w_next w := obj]> (w_mapped w)).
Proof.
  intros w direction obj b Hs Hf Ho.
  unfold cstr_block_is_alive, cstr_block_is_poisoned.
  rewrite (open_block_existing w direction obj Hs Hf).
  set (w1 := set_mapped w _ _).
  set (blk := {| filename := BLOCK_DIR +:+ direction; buffer := w_next w |}).
  assert (Hd : deref w1 (Some blk) = Ret (obj, b)).
  { unfold deref, w1, blk. world_fields. cbn [buffer].
    now rewrite lookup_insert_eq, Ho. }
  split.
  - unfold block_is_alive, close_block. rewrite Hd.
    destruct (Z.eqb_spec (owner b) (w_pid w1)) as [E | E].
    + eexists. split; [reflexivity |]. repeat split.
      * intros Hne. now contradict Hne.
      * intros _. now eexists.
    + eexists. split; [reflexivity |]. repeat split.
      intros Heq. now contradict E.
  - unfold block_is_poisoned, close_block. rewrite Hd. cbv zeta.
    change (kill w1 (owner b)) with (kill w (owner b)).
    set (p := negb (kill w (owner b) =? 0) && is_alive b).
    assert (Hd' : forall m, deref (if p then fprintf_stderr w1 m else w1)
                              (Some blk) = Ret (obj, b)).
    { intros m. destruct p; exact Hd. }
    rewrite Hd'.
    destruct (owner b =? w_pid _); (eexists; split; [reflexivity |]);
      destruct p; repeat split.
Qed.

Lemma cstr_predicates_on_existing_region_witness :
  (exists w' : world,
      cstr_block_is_alive studio "cam" = Ret (is_alive cam, w') /\
      w_files w' = w_files studio /\ w_objects w' = w_objects studio /\
      w_mapped w' = <[w_next studio := 0%nat]> (w_mapped studio) /\
      (owner cam <> w_pid studio -> w_stderr w' = w_stderr studio) /\
      (owner cam = w_pid studio ->
       exists msg, w_stderr w' = w_stderr studio ++ [msg])) /\
  (exists w' : world,
      cstr_block_is_poisoned studio "cam"
        = Ret (negb (kill studio (owner cam) =? 0) && is_alive cam, w') /\
      w_files w' = w_files studio /\ w_objects w' = w_objects studio /\
      w_mapped w' = <[w_next studio := 0%nat]> (w_mapped studio)).
Proof.
  apply (cstr_predicates_on_existing_region studio "cam" 0%nat cam).
  - reflexivity.
  - vm_compute. reflexivity.
  - vm_compute. reflexivity.
Defined.

(** ** One region, several handles *)

(** X9.  Handles share the region: a [write_frame] through one handle
    changes what every handle to the same object leads to, leaves every
    other region, every name and every mapping alone, and a call that is
    refused changes no region at all. *)
Theorem block_write_frame_is_shared :
  forall (w : world) (writer reader : block_t) (obj : nat) (b : buffer_t)
         (width height depth t : Z) (data : list Byte.byte)
         (code : Z) (w' : world),
    deref w (Some writer) = Ret (obj, b) ->
    deref w (Some reader) = Ret (obj, b) ->
    block_write_frame w (Some writer) width height depth t data
      = Ret (code, w') ->
    exists b' : buffer_t,
      write_frame b width height depth t data = Ret (code, b') /\
      deref w' (Some reader) = Ret (obj, b') /\
      deref w' (Some writer) = Ret (obj, b') /\
      (code <> SUCCESS -> b' = b) /\
      (forall o : nat, o <> obj -> w_objects w' !! o = w_objects w !! o) /\
      w_files w' = w_files w /\ w_mapped w' = w_mapped w.
Proof.
  intros w writer reader obj b width height depth t data code w' Hw Hr Hcall.
  unfold block_write_frame in Hcall. rewrite Hw in Hcall.
  destruct (write_frame b width height depth t data) as [[c b'] | |] eqn:Hwf;
    try discriminate.
  injection Hcall as <- <-. exists b'. split; [reflexivity |].
  assert (Hshared : forall blk, deref w (Some blk) = Ret (obj, b) ->
            deref (set_objects w (<[obj := b']> (w_objects w))) (Some blk)
            = Ret (obj, b')).
  { intros blk Hd. unfold deref in *. world_fields.
    destruct (w_mapped w !! buffer blk) as [o |]; [| discriminate].
    destruct (w_objects w !! o) eqn:Ho; [| discriminate].
    injection Hd as -> _. now rewrite lookup_insert_eq. }
  split; [now apply Hshared |]. split; [now apply Hshared |].
  split.
  { intros Hne. apply write_frame_ret in Hwf as [[_ ?] | [? _]];
      [assumption | contradiction]. }
  split; [intros o Ho; now apply lookup_insert_ne |].
  split; reflexivity.
Qed.

Lemma block_write_frame_is_shared_witness :
  exists b' : buffer_t,
    write_frame cam 2 2 1 11 (solid Byte.x01) = Ret (SUCCESS, b') /\
    deref (set_objects visitor_twice
             (<[0%nat := cam_after 1]> (w_objects visitor_twice)))
          (Some {| filename := "/dev/shm/buffer-cam"; buffer := 2 |})
      = Ret (0%nat, b') /\
    deref (set_objects visitor_twice
             (<[0%nat := cam_after 1]> (w_objects visitor_twice)))
          (Some {| filename := "/dev/shm/buffer-cam"; buffer := 1 |})
      = Ret (0%nat, b') /\
    (SUCCESS <> SUCCESS -> b' = cam) /\
    (forall o : nat, o <> 0%nat ->
       w_objects (set_objects visitor_twice
                    (<[0%nat := cam_after 1]> (w_objects visitor_twice))) !! o
       = w_objects visitor_twice !! o) /\
    w_files (set_objects visitor_twice
               (<[0%nat := cam_after 1]> (w_objects visitor_twice)))
      = w_files visitor_twice /\
    w_mapped (set_objects visitor_twice
                (<[0%nat := cam_after 1]> (w_objects visitor_twice)))
      = w_mapped visitor_twice.
Proof.
  apply (block_write_frame_is_shared visitor_twice
           {| filename := "/dev/shm/buffer-cam"; buffer := 1 |}
           {| filename := "/dev/shm/buffer-cam"; buffer := 2 |}
           0%nat cam 2 2 1 11 (solid Byte.x01) SUCCESS).
  - vm_compute. reflexivity.
  - vm_compute. reflexivity.
  - vm_compute. reflexivity.
Defined.

(** ** write_frame: progress and footprint *)

(** X10.  On an alive region with its three slots, whose target slot is
    not locked, a call with the region's geometry and at least
    [image_size] bytes of data returns SUCCESS: it neither waits nor
    leaves the region's memory.  Other slots may be locked by readers. *)
Theorem write_frame_returns_success :
  forall (b : buffer_t) (t : Z) (data : list Byte.byte)
         (md : frame_metadata_t),
    is_alive b = true ->
    well_formed b ->
    metadata b !! Z.to_nat (wrap64 (frame_cnt b + 1) mod BUFFER_COUNT)
      = Some md ->
    rwlock md = Unlocked ->
    (Z.to_nat (buffer_image_size b) <= length data)%nat ->
    exists b' : buffer_t,
      write_frame b (width b) (height b) (depth b) t data
        = Ret (SUCCESS, b') /\
      frame_cnt b' = wrap64 (frame_cnt b + 1) /\
      well_formed b'.
Proof.
  intros b t data md Hal Hwf Hmd Hfree Hdata.
  rewrite <- buffer_to_write_to_eq in Hmd.
  unfold write_frame. rewrite !Z.eqb_refl, Hal, image_size_once. simpl.
  rewrite Hmd, Hfree. simpl.
  destruct (memcpy_to _ _ _ _) as [imgs |] eqn:Hcp.
  - eexists. split; [reflexivity |]. split; [reflexivity |].
    destruct Hwf as [Hm Hi]. split; simpl.
    + now rewrite length_insert.
    + apply memcpy_to_length in Hcp. now rewrite Hcp.
  - exfalso. unfold memcpy_to in Hcp.
    destruct (decide _) as [? | Hn]; [discriminate |]. apply Hn.
    split; [| exact Hdata].
    apply well_formed_slot_bytes;
      [assumption | reflexivity | apply buffer_to_write_to_range].
Qed.

Lemma write_frame_returns_success_witness :
  exists b' : buffer_t,
    write_frame (cam_after 3) (width (cam_after 3)) (height (cam_after 3))
                (depth (cam_after 3)) 14 (solid Byte.x04)
      = Ret (SUCCESS, b') /\
    frame_cnt b' = wrap64 (frame_cnt (cam_after 3) + 1) /\
    well_formed b'.
Proof.
  apply (write_frame_returns_success (cam_after 3) 14 (solid Byte.x04)
           {| frame_uid := 1; acquisition_time := 11; rwlock := Unlocked |}).
  - reflexivity.
  - split; reflexivity.
  - reflexivity.
  - reflexivity.
  - vm_compute. lia.
Defined.

(** X11.  A successful [write_frame] on a region whose three slots fit
    the address space writes one slot only: the metadata and the image
    bytes of the two other slots are what they were. *)
Theorem write_frame_leaves_other_slots :
  forall (b : buffer_t) (w h d t : Z) (data : list Byte.byte) (b' : buffer_t)
         (j : Z),
    well_formed b ->
    BUFFER_COUNT * buffer_image_size b < 2 ^ 64 ->
    write_frame b w h d t data = Ret (SUCCESS, b') ->
    0 <= j < BUFFER_COUNT ->
    j <> (frame_cnt b + 1) mod 2 ^ 64 mod BUFFER_COUNT ->
    metadata b' !! Z.to_nat j = metadata b !! Z.to_nat j /\
    slot_image b' j = slot_image b j.
Proof.
  intros b w h d t data b' j [_ Hlen] Hfit Hw Hj Hne.
  pose proof (buffer_image_size_range b) as Hsize.
  apply write_frame_ret in Hw as [[Hc _] | (_ & _ & _ & Hs)];
    [contradiction |].
  destruct Hs as (md & imgs & _ & Hcp & ->).
  rewrite buffer_to_write_to_eq in *.
  change ((frame_cnt b + 1) mod 2 ^ 64) with (wrap64 (frame_cnt b + 1)) in Hne.
  set (slot := wrap64 (frame_cnt b + 1) mod BUFFER_COUNT) in *.
  pose proof (mod_count_range (wrap64 (frame_cnt b + 1))) as Hslot.
  fold slot in Hslot. split.
  - simpl. apply list_lookup_insert_ne. lia.
  - unfold slot_image. rewrite set_slot_image_size. simpl.
    eapply memcpy_to_elsewhere; [exact Hcp |].
    unfold BUFFER_COUNT in *.
    rewrite !wrap64_small by nia.
    assert (j < slot \/ slot < j) as [? | ?] by lia; [left | right]; nia.
Qed.

Lemma write_frame_leaves_other_slots_witness :
  metadata (cam_after 4) !! Z.to_nat 0 = metadata (cam_after 3) !! Z.to_nat 0 /\
  slot_image (cam_after 4) 0 = slot_image (cam_after 3) 0.
Proof.
  apply (write_frame_leaves_other_slots (cam_after 3) 2 2 1 14
           (solid Byte.x04) (cam_after 4) 0).
  - split; reflexivity.
  - vm_compute. reflexivity.
  - vm_compute. reflexivity.
  - vm_compute. split; [discriminate | reflexivity].
  - vm_compute. discriminate.
Defined.

(** X12.  Whatever it returns, [write_frame] leaves the header alone:
    geometry, owner and [is_alive] are unchanged, the region keeps its
    number of metadata entries and of image bytes, and [frame_cnt] is
    unchanged on a refusal and one higher (modulo 2^64) on SUCCESS. *)
Theorem write_frame_keeps_header :
  forall (b : buffer_t) (w h d t : Z) (data : list Byte.byte)
         (code : Z) (b' : buffer_t),
    write_frame b w h d t data = Ret (code, b') ->
    width b' = width b /\ height b' = height b /\ depth b' = depth b /\
    owner b' = owner b /\ is_alive b' = is_alive b /\
    length (metadata b') = length (metadata b) /\
    length (images b') = length (images b) /\
    frame_cnt b' = (if code =? SUCCESS then wrap64 (frame_cnt b + 1)
                    else frame_cnt b) /\
    (code = SUCCESS \/ code = FRAME_SIZE_MISMATCH \/ code = BLOCK_NOT_ACTIVE).
Proof.
  intros b w h d t data code b' Hw.
  assert (Hcodes : code = SUCCESS \/ code = FRAME_SIZE_MISMATCH
                   \/ code = BLOCK_NOT_ACTIVE).
  { unfold write_frame in Hw.
    destruct (_ || _); [injection Hw as <- _; auto |].
    destruct (negb (is_alive b)); [injection Hw as <- _; auto |].
    destruct (metadata b !! _) as [md |]; [| discriminate].
    destruct (pthread_rwlock_wrlock _); [| discriminate].
    destruct (memcpy_to _ _ _ _); [| discriminate].
    injection Hw as <- _. auto. }
  apply write_frame_ret in Hw as [[Hne ->] | (-> & _ & _ & Hs)].
  - destruct (Z.eqb_spec code SUCCESS); [contradiction |]. repeat split.
    exact Hcodes.
  - destruct Hs as (md & imgs & _ & Hcp & ->). simpl.
    repeat split; auto.
    + apply length_insert.
    + eapply memcpy_to_length, Hcp.
Qed.

Lemma write_frame_keeps_header_witness :
  width (cam_after 1) = width cam /\ height (cam_after 1) = height cam /\
  depth (cam_after 1) = depth cam /\
  owner (cam_after 1) = owner cam /\ is_alive (cam_after 1) = is_alive cam /\
  length (metadata (cam_after 1)) = length (metadata cam) /\
  length (images (cam_after 1)) = length (images cam) /\
  frame_cnt (cam_after 1) = (if SUCCESS =? SUCCESS then wrap64 (frame_cnt cam + 1)
                             else frame_cnt cam) /\
  (SUCCESS = SUCCESS \/ SUCCESS = FRAME_SIZE_MISMATCH
   \/ SUCCESS = BLOCK_NOT_ACTIVE).
Proof.
  apply (write_frame_keeps_header cam 2 2 1 11 (solid Byte.x01) SUCCESS
           (cam_after 1)).
  vm_compute. reflexivity.
Defined.

(** X13.  A region that is not alive stays as it is under [write_frame]:
    every call is refused with FRAME_SIZE_MISMATCH or BLOCK_NOT_ACTIVE, and
    no sequence of calls publishes anything or changes a byte of it. *)
Theorem write_frame_on_dead_region :
  forall (b : buffer_t) (pubs : list publication) (calls : list write_call),
    is_alive b = false ->
    (forall (w h d t : Z) (data : list Byte.byte),
        write_frame b w h d t data = Ret (FRAME_SIZE_MISMATCH, b) \/
        write_frame b w h d t data = Ret (BLOCK_NOT_ACTIVE, b)) /\
    run_calls b pubs calls = Some (b, pubs).
Proof.
  intros b pubs calls Hdead.
  assert (Hone : forall w h d t data,
             write_frame b w h d t data = Ret (FRAME_SIZE_MISMATCH, b) \/
             write_frame b w h d t data = Ret (BLOCK_NOT_ACTIVE, b)).
  { intros w h d t data. unfold write_frame. rewrite Hdead.
    destruct (_ || _); [left | right]; reflexivity. }
  split; [exact Hone |].
  induction calls as [| c calls IH]; simpl; [reflexivity |].
  destruct (Hone (c_width c) (c_height c) (c_depth c) (c_time c) (c_data c))
    as [-> | ->]; exact IH.
Qed.

Lemma write_frame_on_dead_region_witness :
  (forall (w h d t : Z) (data : list Byte.byte),
      write_frame (kill_buffer (cam_after 2)) w h d t data
        = Ret (FRAME_SIZE_MISMATCH, kill_buffer (cam_after 2)) \/
      write_frame (kill_buffer (cam_after 2)) w h d t data
        = Ret (BLOCK_NOT_ACTIVE, kill_buffer (cam_after 2))) /\
  run_calls (kill_buffer (cam_after 2)) (pubs_after 2) reel
    = Some (kill_buffer (cam_after 2), pubs_after 2).
Proof.
  apply (write_frame_on_dead_region (kill_buffer (cam_after 2))
           (pubs_after 2) reel).
  reflexivity.
Defined.

(** ** read_frame: refusals and the shape of the frame *)

(** X14.  [read_frame] never waits on a region that is not alive: it
    returns BLOCK_NOT_ACTIVE at once.  A caught-up consumer that waits and
    is woken into a region that has been destroyed in the meantime
    returns BLOCK_NOT_ACTIVE as well.  Either way the frame keeps its uid
    and acquisition time. *)
Theorem read_frame_on_dead_region :
  forall (uninit : nat -> Byte.byte) (b : buffer_t) (frame : frame_t)
         (block_thread : bool) (wakes : list buffer_t) (b' : buffer_t),
    (is_alive b = false ->
     read_frame uninit b frame block_thread wakes
       = Ret (BLOCK_NOT_ACTIVE, adopt_geometry uninit b frame)) /\
    (is_alive b = true -> f_frame_uid frame = frame_cnt b ->
     is_alive b' = false ->
     read_frame uninit b frame true (b' :: wakes)
       = Ret (BLOCK_NOT_ACTIVE, adopt_geometry uninit b frame)) /\
    f_frame_uid (adopt_geometry uninit b frame) = f_frame_uid frame /\
    f_acquisition_time (adopt_geometry uninit b frame)
      = f_acquisition_time frame.
Proof.
  intros uninit b frame block_thread wakes b'.
  split; [| split; [| split; reflexivity]].
  - intros Hdead. unfold read_frame, admission. now rewrite Hdead.
  - intros Hal Hup Hdead. unfold read_frame, admission.
    cbn [adopt_geometry f_frame_uid].
    now rewrite Hal, Hup, Z.eqb_refl, Hdead.
Qed.

Lemma read_frame_on_dead_region_witness :
  read_frame uninit_aa (kill_buffer (cam_after 2)) (seen 1 Byte.x01) true []
    = Ret (BLOCK_NOT_ACTIVE,
           adopt_geometry uninit_aa (kill_buffer (cam_after 2))
             (seen 1 Byte.x01)) /\
  read_frame uninit_aa (cam_after 2) (seen 2 Byte.x02) true
             [kill_buffer (cam_after 2)]
    = Ret (BLOCK_NOT_ACTIVE,
           adopt_geometry uninit_aa (cam_after 2) (seen 2 Byte.x02)).
Proof.
  split.
  - apply (proj1 (read_frame_on_dead_region uninit_aa
                    (kill_buffer (cam_after 2)) (seen 1 Byte.x01) true []
                    cam)).
    reflexivity.
  - apply (proj1 (proj2 (read_frame_on_dead_region uninit_aa (cam_after 2)
                           (seen 2 Byte.x02) true []
                           (kill_buffer (cam_after 2)))));
      reflexivity.
Defined.

Lemma read_frame_ret uninit b frame block_thread wakes code frame' :
  read_frame uninit b frame block_thread wakes = Ret (code, frame') ->
  (code = SUCCESS /\
   exists b_r md,
     admission b (f_frame_uid frame) block_thread wakes = Ret (inr (b_r, md)) /\
     copy_out b_r md (target_buffer (frame_cnt b) (f_frame_uid frame))
       (adopt_geometry uninit b frame) = Ret (SUCCESS, frame')) \/
  ((code = BLOCK_NOT_ACTIVE \/ code = NO_NEW_FRAME) /\
   frame' = adopt_geometry uninit b frame).
Proof.
  unfold read_frame. cbn [adopt_geometry f_frame_uid].
  destruct (admission b (f_frame_uid frame) block_thread wakes)
    as [[c | [b_r md]] | | e] eqn:Ha; try discriminate.
  - intros [= <- <-]. right. split; [| reflexivity].
    eapply admission_inl, Ha.
  - intros Hc. left.
    pose proof (copy_out_ret _ _ _ _ _ _ Hc) as Hr.
    destruct Hr as (-> & _).
    { cbn [adopt_geometry f_data]. now rewrite length_realloc. }
    split; [reflexivity |]. now exists b_r, md.
Qed.

(** X15.  Whenever [read_frame] returns, with whatever code, the frame
    carries the region's geometry and a data buffer of exactly the
    region's image size, so [frame_image_size] of the frame is
    [buffer_image_size] of the region; the code is one of SUCCESS,
    BLOCK_NOT_ACTIVE and NO_NEW_FRAME, and unless it is SUCCESS the uid
    and the acquisition time are those the frame came with. *)
Theorem read_frame_shapes_frame :
  forall (uninit : nat -> Byte.byte) (b : buffer_t) (frame : frame_t)
         (block_thread : bool) (wakes : list buffer_t) (code : Z)
         (frame' : frame_t),
    read_frame uninit b frame block_thread wakes = Ret (code, frame') ->
    (f_width frame', f_height frame', f_depth frame')
      = (width b, height b, depth b) /\
    length (f_data frame') = Z.to_nat (buffer_image_size b) /\
    frame_image_size frame' = buffer_image_size b /\
    (code = SUCCESS \/ code = BLOCK_NOT_ACTIVE \/ code = NO_NEW_FRAME) /\
    (code <> SUCCESS ->
     f_frame_uid frame' = f_frame_uid frame /\
     f_acquisition_time frame' = f_acquisition_time frame).
Proof.
  intros uninit b frame block_thread wakes code frame' Hr.
  apply read_frame_ret in Hr
    as [(-> & b_r & md & _ & Hc) | (Hcode & ->)].
  - apply copy_out_ret in Hc as (_ & _ & _ & Hgeo & Hbytes).
    2:{ cbn [adopt_geometry f_data]. now rewrite length_realloc. }
    cbn [adopt_geometry f_width f_height f_depth] in Hgeo.
    rewrite frame_image_size_adopt in Hbytes.
    apply bytes_at_length in Hbytes.
    injection Hgeo as Hw Hh Hd.
    split; [congruence |]. split; [exact Hbytes |].
    split; [unfold frame_image_size, buffer_image_size; congruence |].
    split; [now left | intros Hne; now contradict Hne].
  - split; [reflexivity |]. split; [apply length_realloc |].
    split; [reflexivity |]. split; [tauto |]. intros _. now split.
Qed.

Lemma read_frame_shapes_frame_witness :
  (f_width (seen 5 Byte.x05), f_height (seen 5 Byte.x05),
   f_depth (seen 5 Byte.x05))
    = (width (cam_after 7), height (cam_after 7), depth (cam_after 7)) /\
  length (f_data (seen 5 Byte.x05))
    = Z.to_nat (buffer_image_size (cam_after 7)) /\
  frame_image_size (seen 5 Byte.x05) = buffer_image_size (cam_after 7) /\
  (SUCCESS = SUCCESS \/ SUCCESS = BLOCK_NOT_ACTIVE \/ SUCCESS = NO_NEW_FRAME) /\
  (SUCCESS <> SUCCESS ->
   f_frame_uid (seen 5 Byte.x05) = f_frame_uid new_frame /\
   f_acquisition_time (seen 5 Byte.x05) = f_acquisition_time new_frame).
Proof.
  apply (read_frame_shapes_frame uninit_aa (cam_after 7) new_frame false []
           SUCCESS (seen 5 Byte.x05)).
  vm_compute. reflexivity.
Defined.

(** ** What the ring retains *)

Lemma run_calls_metadata_length calls :
  forall b pubs b' pubs',
    run_calls b pubs calls = Some (b', pubs') ->
    length (metadata b') = length (metadata b).
Proof.
  induction calls as [| c calls IH]; intros b pubs b' pubs'; simpl.
  - now intros [= <- _].
  - destruct (write_frame b _ _ _ _ _) as [[code b1] | |] eqn:Hw;
      try discriminate.
    intros Hrun. rewrite (IH _ _ _ _ Hrun).
    apply write_frame_ret in Hw as [[_ ->] | (_ & _ & _ & Hs)];
      [reflexivity |].
    destruct Hs as (md & imgs & _ & _ & ->). simpl. apply length_insert.
Qed.

(** A uid among the last [BUFFER_COUNT] published sits in its slot with
    its time and payload. *)
Lemma slot_of_recent_uid b pubs u md :
  ring_invariant b pubs -> Z.of_nat (length pubs) < 2 ^ 64 ->
  1 <= u <= Z.of_nat (length pubs) ->
  Z.of_nat (length pubs) - BUFFER_COUNT < u ->
  metadata b !! Z.to_nat (u mod BUFFER_COUNT) = Some md ->
  exists p : publication,
    pubs !! (length pubs - Z.to_nat u)%nat = Some p /\
    pub_uid p = u /\ frame_uid md = u /\
    acquisition_time md = pub_time p /\
    slot_image b (u mod BUFFER_COUNT) = Some (pub_payload p).
Proof.
  intros Hinv Hk Hu Hrecent Hmd.
  destruct (lookup_lt_is_Some_2 pubs (length pubs - Z.to_nat u)) as [p Hp];
    [lia |].
  assert (Hpu : pub_uid p = u).
  { rewrite (ri_uids _ _ Hinv _ _ Hp), wrap64_small by lia. lia. }
  assert (Hin : p ∈ pubs) by (eapply list_elem_of_lookup_2, Hp).
  pose proof (slot_uid_at_least b pubs u md Hinv Hk Hu Hmd) as Hge.
  assert (Huid : frame_uid md = u).
  { pose proof (ri_slots _ _ Hinv _ md (mod_count_range u) Hmd) as Hholds.
    unfold slot_holds in Hholds.
    destruct (find _ pubs) as [q |] eqn:Hfind.
    - destruct Hholds as (Hq & _ & _).
      apply find_some in Hfind as [Hqin Hqs].
      apply list_elem_of_In in Hqin.
      pose proof (publication_uid_range b pubs q Hinv Hk Hqin) as Hr.
      unfold in_slot in Hqs. apply Z.eqb_eq in Hqs.
      rewrite Hq in Hge |- *. unfold BUFFER_COUNT in *.
      Z.div_mod_to_equations. lia.
    - pose proof (find_none _ _ Hfind p) as Hf.
      unfold in_slot in Hf. rewrite Hpu, Z.eqb_refl in Hf.
      discriminate Hf. now apply list_elem_of_In. }
  exists p. split; [exact Hp |]. split; [exact Hpu |]. split; [exact Huid |].
  apply (slot_publication b pubs _ md p Hinv (mod_count_range u) Hmd).
  rewrite Huid, <- Hpu. now apply (published_as_unique b).
Qed.

(** X16.  After k publishes (k < 2^64) on a created region, each of the
    last [BUFFER_COUNT] publications is still in the ring: publication
    number k - i (i = 0, 1, 2) has uid k - i and sits in slot
    [(k - i) mod BUFFER_COUNT] with its uid, its acquisition time and its
    payload. *)
Theorem ring_retains_last_frames :
  forall (sizeof pid w h d : Z) (calls : list write_call) (b : buffer_t)
         (pubs : list publication) (i : nat) (p : publication),
    0 <= sizeof ->
    run_calls (created sizeof pid w h d) [] calls = Some (b, pubs) ->
    Z.of_nat (length pubs) < 2 ^ 64 ->
    pubs !! i = Some p ->
    (i < Z.to_nat BUFFER_COUNT)%nat ->
    pub_uid p = Z.of_nat (length pubs) - Z.of_nat i /\
    exists md : frame_metadata_t,
      metadata b !! Z.to_nat (pub_uid p mod BUFFER_COUNT) = Some md /\
      frame_uid md = pub_uid p /\
      acquisition_time md = pub_time p /\
      slot_image b (pub_uid p mod BUFFER_COUNT) = Some (pub_payload p).
Proof.
  intros sizeof pid w h d calls b pubs i p Hs Hrun Hk Hp Hi.
  assert (Hinv : ring_invariant b pubs).
  { eapply run_calls_invariant; [| exact Hrun].
    now apply ring_invariant_created. }
  pose proof (lookup_lt_Some _ _ _ Hp) as Hlt.
  assert (Hpu : pub_uid p = Z.of_nat (length pubs) - Z.of_nat i).
  { rewrite (ri_uids _ _ Hinv _ _ Hp), wrap64_small by lia. lia. }
  split; [exact Hpu |].
  destruct (lookup_lt_is_Some_2 (metadata b)
              (Z.to_nat (pub_uid p mod BUFFER_COUNT))) as [md Hmd].
  { rewrite (run_calls_metadata_length _ _ _ _ _ Hrun).
    pose proof (mod_count_range (pub_uid p)). simpl.
    unfold BUFFER_COUNT in *. lia. }
  exists md. split; [exact Hmd |].
  destruct (slot_of_recent_uid b pubs (pub_uid p) md Hinv Hk)
    as (q & Hq & _ & Huid & Htime & Himg);
    [unfold BUFFER_COUNT in *; lia .. | exact Hmd |].
  assert (q = p) as ->.
  { replace (length pubs - Z.to_nat (pub_uid p))%nat with i in Hq by lia.
    congruence. }
  now repeat split.
Qed.

Lemma ring_retains_last_frames_witness :
  pub_uid {| pub_uid := 5; pub_time := 15; pub_payload := solid Byte.x05 |}
    = Z.of_nat (length (pubs_after 7)) - Z.of_nat 2 /\
  exists md : frame_metadata_t,
    metadata (cam_after 7) !! Z.to_nat (5 mod BUFFER_COUNT) = Some md /\
    frame_uid md = 5 /\
    acquisition_time md = 15 /\
    slot_image (cam_after 7) (5 mod BUFFER_COUNT) = Some (solid Byte.x05).
Proof.
  apply (ring_retains_last_frames sizeof_example 100 2 2 1 (take 7 reel)
           (cam_after 7) (pubs_after 7) 2
           {| pub_uid := 5; pub_time := 15; pub_payload := solid Byte.x05 |}).
  - vm_compute. discriminate.
  - vm_compute. reflexivity.
  - vm_compute. reflexivity.
  - vm_compute. reflexivity.
  - vm_compute. lia.
Defined.

(** ** read_frame: what a consumer gets *)

Lemma acquire_read_lock_free target b wakes md :
  metadata b !! target = Some md -> rwlock md = Unlocked ->
  acquire_read_lock target b wakes = Ret (inr (b, md)).
Proof. intros Hmd Hfree. destruct wakes; simpl; now rewrite Hmd, Hfree. Qed.

Lemma quiescent_lookup b i md :
  quiescent b -> metadata b !! i = Some md -> rwlock md = Unlocked.
Proof.
  intros Hq Hmd. unfold quiescent in Hq. rewrite Forall_forall in Hq.
  apply Hq. eapply list_elem_of_lookup_2, Hmd.
Qed.

(** The frame copied out of the slot of a recent uid [u] of region [b],
    for a call that entered on region [b0]. *)
Lemma copy_out_recent uninit b0 b pubs frame u md :
  ring_invariant b pubs -> Z.of_nat (length pubs) < 2 ^ 64 ->
  same_geometry b0 b ->
  1 <= u <= Z.of_nat (length pubs) ->
  Z.of_nat (length pubs) - BUFFER_COUNT < u ->
  metadata b !! Z.to_nat (u mod BUFFER_COUNT) = Some md ->
  exists p : publication,
    p ∈ pubs /\ pub_uid p = u /\
    copy_out b md (u mod BUFFER_COUNT) (adopt_geometry uninit b0 frame)
    = Ret (SUCCESS,
           {| f_width := width b0; f_height := height b0;
              f_depth := depth b0;
              f_acquisition_time := pub_time p; f_frame_uid := u;
              f_data := pub_payload p |}).
Proof.
  intros Hinv Hk Hgeo Hu Hrecent Hmd.
  destruct (slot_of_recent_uid b pubs u md Hinv Hk Hu Hrecent Hmd)
    as (p & Hp & Hpu & Huid & Htime & Himg).
  exists p. split; [eapply list_elem_of_lookup_2, Hp |].
  split; [exact Hpu |].
  unfold copy_out. rewrite frame_image_size_adopt.
  rewrite <- (same_geometry_image_size b0 b Hgeo).
  rewrite image_size_once. unfold slot_image in Himg. rewrite Himg.
  rewrite memcpy_to_whole.
  - cbn [adopt_geometry f_width f_height f_depth]. now rewrite Huid, Htime.
  - cbn [adopt_geometry f_data]. rewrite length_realloc.
    now rewrite (same_geometry_image_size b0 b Hgeo).
  - eapply bytes_at_length, Himg.
Qed.

Lemma created_run_healthy sizeof pid w h d calls b pubs :
  0 <= sizeof ->
  sizeof + BUFFER_COUNT * wrap64 (wrap64 (w * h) * d) < 2 ^ 64 ->
  run_calls (created sizeof pid w h d) [] calls = Some (b, pubs) ->
  ring_invariant b pubs /\ is_alive b = true /\ well_formed b /\ quiescent b.
Proof.
  intros Hs Hfit Hrun.
  destruct (created_well_formed sizeof pid w h d Hs Hfit) as (Hwf0 & Hq0 & Hal0).
  destruct (run_calls_keeps _ _ _ _ _ Hrun) as (Hal & _ & Hwf & Hq).
  split; [| split; [congruence | split; auto]].
  eapply run_calls_invariant; [| exact Hrun]. now apply ring_invariant_created.
Qed.




Lemma publish_then_read uninit b pubs frame t data block_thread wakes :
  ring_invariant b pubs -> is_alive b = true -> well_formed b ->
  quiescent b ->
  Z.of_nat (length pubs) + 1 < 2 ^ 64 ->
  f_frame_uid frame = frame_cnt b ->
  (Z.to_nat (buffer_image_size b) <= length data)%nat ->
  exists b' : buffer_t,
    write_frame b (width b) (height b) (depth b) t data
      = Ret (SUCCESS, b') /\
    read_frame uninit b frame true (b' :: wakes)
      = Ret (SUCCESS,
             {| f_width := width b; f_height := height b; f_depth := depth b;
                f_acquisition_time := t; f_frame_uid := frame_cnt b + 1;
                f_data := take (Z.to_nat (buffer_image_size b)) data |}) /\
    read_frame uninit b' frame block_thread wakes
      = Ret (SUCCESS,
             {| f_width := width b; f_height := height b; f_depth := depth b;
                f_acquisition_time := t; f_frame_uid := frame_cnt b + 1;
                f_data := take (Z.to_nat (buffer_image_size b)) data |}).
Proof.
  intros Hinv Hal Hwf Hq Hk Hup Hdata.
  assert (Hcnt : frame_cnt b = Z.of_nat (length pubs)).
  { rewrite (ri_count _ _ Hinv). apply wrap64_small. lia. }
  destruct (write_frame_succeeds b t data Hal Hwf Hq Hdata)
    as (b' & Hw & Hal' & Hwf' & Hq' & Hgeo & Hcnt').
  rewrite wrap64_small in Hcnt' by lia.
  exists b'. split; [exact Hw |].
  set (p := {| pub_uid := frame_cnt b'; pub_time := t;
               pub_payload := take (Z.to_nat (buffer_image_size b)) data |}).
  assert (Hinv' : ring_invariant b' (p :: pubs))
    by (eapply ring_invariant_publish; eassumption).
  set (u := frame_cnt b + 1).
  assert (Hlen' : Z.of_nat (length (p :: pubs)) = u)
    by (unfold u; simpl length; lia).
  destruct (well_formed_slot_lookup b' (u mod BUFFER_COUNT) Hwf'
              (mod_count_range u)) as [md Hmd].
  assert (Hfree := quiescent_lookup _ _ _ Hq' Hmd).
  assert (Hcopy : forall b0, same_geometry b0 b' ->
            copy_out b' md (u mod BUFFER_COUNT) (adopt_geometry uninit b0 frame)
            = Ret (SUCCESS,
                   {| f_width := width b0; f_height := height b0;
                      f_depth := depth b0; f_acquisition_time := t;
                      f_frame_uid := u;
                      f_data := take (Z.to_nat (buffer_image_size b)) data |})).
  { intros b0 Hg0.
    destruct (copy_out_recent uninit b0 b' (p :: pubs) frame u md Hinv')
      as (q & Hin & Hqu & Hc);
      [lia | exact Hg0 | unfold BUFFER_COUNT; lia .. | exact Hmd |].
    assert (q = p) as ->.
    { pose proof (published_as_unique b' (p :: pubs) q Hinv' ltac:(lia) Hin)
        as Hq1.
      unfold published_as in Hq1. simpl in Hq1.
      rewrite Hqu, Hcnt' in Hq1. fold u in Hq1.
      rewrite Z.eqb_refl in Hq1. congruence. }
    exact Hc. }
  assert (Htarget : forall newest, newest = frame_cnt b \/ newest = u ->
            target_frame_uid newest (f_frame_uid frame) = u).
  { intros newest Hn. rewrite target_frame_uid_eq by (unfold u in Hn; lia).
    rewrite Hup, (wrap64_small (frame_cnt b + 1)) by lia. fold u.
    destruct (Z.ltb_spec newest BUFFER_COUNT); [reflexivity |].
    unfold BUFFER_COUNT in *. unfold u in *. lia. }
  split.
  - unfold read_frame, admission. cbn [adopt_geometry f_frame_uid].
    rewrite target_buffer_eq, (Htarget _ (or_introl eq_refl)).
    rewrite Hal, Hal'. cbn [negb].
    destruct (Z.eqb_spec (f_frame_uid frame) (frame_cnt b)) as [_ | E];
      [| contradiction].
    rewrite (acquire_read_lock_free _ b' wakes md Hmd Hfree).
    apply (Hcopy b Hgeo).
  - unfold read_frame, admission. cbn [adopt_geometry f_frame_uid].
    rewrite Hal'. cbn [negb].
    destruct (Z.eqb_spec (f_frame_uid frame) (frame_cnt b')) as [E | _];
      [lia |].
    rewrite target_buffer_eq, (Htarget _ (or_intror Hcnt')).
    rewrite (acquire_read_lock_free _ b' wakes md Hmd Hfree).
    destruct Hgeo as (Hgw & Hgh & Hgd).
    rewrite <- Hgw, <- Hgh, <- Hgd.
    apply (Hcopy b'). repeat split.
Qed.

(** X18.  Publish and read form a round trip.  Let a consumer have
    caught up with a created region of k frames (k + 1 < 2^64) and the
    producer publish one more frame with time [t] and image [data].  Then
    the publish returns SUCCESS, and the consumer receives exactly uid
    k + 1, time [t] and the first [image_size] bytes of [data], both when
    it was waiting in a blocking [read_frame] and is woken by the publish
    and when it calls [read_frame] afterwards. *)
Theorem publish_then_read_round_trip :
  forall (uninit : nat -> Byte.byte) (sizeof pid w h d : Z)
         (calls : list write_call) (b : buffer_t) (pubs : list publication)
         (frame : frame_t) (t : Z) (data : list Byte.byte)
         (block_thread : bool) (wakes : list buffer_t),
    0 <= sizeof ->
    sizeof + BUFFER_COUNT * wrap64 (wrap64 (w * h) * d) < 2 ^ 64 ->
    run_calls (created sizeof pid w h d) [] calls = Some (b, pubs) ->
    Z.of_nat (length pubs) + 1 < 2 ^ 64 ->
    f_frame_uid frame = frame_cnt b ->
    (Z.to_nat (buffer_image_size b) <= length data)%nat ->
    let got :=
      {| f_width := width b; f_height := height b; f_depth := depth b;
         f_acquisition_time := t; f_frame_uid := frame_cnt b + 1;
         f_data := take (Z.to_nat (buffer_image_size b)) data |} in
    exists b' : buffer_t,
      write_frame b (width b) (height b) (depth b) t data
        = Ret (SUCCESS, b') /\
      read_frame uninit b frame true (b' :: wakes) = Ret (SUCCESS, got) /\
      read_frame uninit b' frame block_thread wakes = Ret (SUCCESS, got).
Proof.
  intros uninit sizeof pid w h d calls b pubs frame t data block_thread wakes
         Hs Hfit Hrun Hk Hup Hdata got.
  destruct (created_run_healthy _ _ _ _ _ _ _ _ Hs Hfit Hrun)
    as (Hinv & Hal & Hwf & Hq).
  now apply (publish_then_read uninit b pubs).
Qed.

Lemma publish_then_read_round_trip_witness :
  exists b' : buffer_t,
    write_frame (cam_after 4) 2 2 1 15 (solid Byte.x05)
      = Ret (SUCCESS, b') /\
    read_frame uninit_aa (cam_after 4) (seen 4 Byte.x04) true [b']
      = Ret (SUCCESS, seen 5 Byte.x05) /\
    read_frame uninit_aa b' (seen 4 Byte.x04) false []
      = Ret (SUCCESS, seen 5 Byte.x05).
Proof.
  apply (publish_then_read_round_trip uninit_aa sizeof_example 100 2 2 1
           (take 4 reel) (cam_after 4) (pubs_after 4) (seen 4 Byte.x04)
           15 (solid Byte.x05) false []).
  - vm_compute. discriminate.
  - vm_compute. reflexivity.
  - vm_compute. reflexivity.
  - vm_compute. reflexivity.
  - vm_compute. reflexivity.
  - vm_compute. lia.
Defined.

(** ** From one process to another *)

(** X19.  A frame goes from the creator to a consumer in another process.
    On the handle that [create_block] returned for a region whose three
    slots fit the address space, [block_image_size] is the product of
    width, height and depth in 64-bit arithmetic, and a [write_frame] of
    that many bytes or more returns SUCCESS without touching a name.  Any process that sees
    the resulting names and regions then opens the direction and its
    first [read_frame], with a frame whose uid is 0, returns SUCCESS with
    uid 1, the creator's time stamp and image, and the geometry given to
    [create_block]. *)
Theorem frame_travels_between_processes :
  forall (uninit : nat -> Byte.byte) (sizeof : Z) (w : world)
         (direction : string) (width height depth : Z) (w1 : world)
         (blk : block_t) (t : Z) (data : list Byte.byte),
    0 <= sizeof ->
    sizeof + BUFFER_COUNT * wrap64 (wrap64 (width * height) * depth) < 2 ^ 64 ->
    create_block sizeof w direction width height depth = Ret (w1, Some blk) ->
    (Z.to_nat (wrap64 (wrap64 (width * height) * depth)) <= length data)%nat ->
    block_image_size w1 (Some blk)
      = Ret (wrap64 (wrap64 (width * height) * depth)) /\
    exists w2 : world,
      block_write_frame w1 (Some blk) width height depth t data
        = Ret (SUCCESS, w2) /\
      w_files w2 = w_files w1 /\
      forall (v : world) (frame : frame_t) (block_thread : bool)
             (wakes : list buffer_t),
        w_files v = w_files w2 ->
        w_objects v = w_objects w2 ->
        f_frame_uid frame = 0 ->
        exists blk2 : block_t,
          (open_block v direction).2 = Some blk2 /\
          block_read_frame uninit (open_block v direction).1 (Some blk2)
            frame block_thread wakes
          = Ret (SUCCESS,
                 {| f_width := width; f_height := height; f_depth := depth;
                    f_acquisition_time := t; f_frame_uid := 1;
                    f_data :=
                      take (Z.to_nat
                              (wrap64 (wrap64 (width * height) * depth)))
                           data |}).
Proof.
  intros uninit sizeof w direction width height depth w1 blk t data
         Hs Hfit Hc Hdata.
  set (b0 := created sizeof (w_pid w) width height depth).
  assert (Hd1 : deref w1 (Some blk) = Ret (w_next w, b0) /\
                w_files w1 !! (BLOCK_DIR +:+ direction) = Some (w_next w) /\
                contains_slash direction = false).
  { apply create_block_handle in Hc as (Hslash & _ & -> & ->).
    unfold deref. world_fields. cbn [buffer].
    now rewrite !lookup_insert_eq. }
  destruct Hd1 as (Hd1 & Hname & Hslash).
  destruct (created_well_formed sizeof (w_pid w) width height depth Hs Hfit)
    as (Hwf & Hq & Hal).
  pose proof (ring_invariant_created sizeof (w_pid w) width height depth Hs)
    as Hinv.
  split; [unfold block_image_size; now rewrite Hd1 |].
  destruct (write_frame_succeeds b0 t data Hal Hwf Hq Hdata)
    as (b1 & Hw & _).
  change (write_frame b0 width height depth t data = Ret (SUCCESS, b1)) in Hw.
  unfold block_write_frame. rewrite Hd1, Hw.
  eexists. split; [reflexivity |]. split; [reflexivity |].
  intros v frame block_thread wakes Hf Ho Hup. world_fields.
  cbn [w_files set_objects] in Hf. cbn [w_objects set_objects] in Ho.
  rewrite (open_block_existing v direction (w_next w) Hslash)
    by (now rewrite Hf).
  eexists. split; [reflexivity |].
  unfold block_read_frame, deref. cbn [fst buffer]. world_fields.
  rewrite lookup_insert_eq, Ho, lookup_insert_eq.
  destruct (publish_then_read uninit b0 [] frame t data block_thread wakes
              Hinv Hal Hwf Hq)
    as (b2 & Hw2 & _ & Hread); [simpl; lia | exact Hup | exact Hdata |].
  change (write_frame b0 width height depth t data = Ret (SUCCESS, b2)) in Hw2.
  assert (b2 = b1) as -> by congruence.
  exact Hread.
Qed.

Lemma frame_travels_between_processes_witness :
  block_image_size studio studio_block = Ret 4 /\
  exists w2 : world,
    block_write_frame studio studio_block 2 2 1 11 (solid Byte.x01)
      = Ret (SUCCESS, w2) /\
    w_files w2 = w_files studio /\
    forall (v : world) (frame : frame_t) (block_thread : bool)
           (wakes : list buffer_t),
      w_files v = w_files w2 ->
      w_objects v = w_objects w2 ->
      f_frame_uid frame = 0 ->
      exists blk2 : block_t,
        (open_block v "cam").2 = Some blk2 /\
        block_read_frame uninit_aa (open_block v "cam").1 (Some blk2)
          frame block_thread wakes
        = Ret (SUCCESS, seen 1 Byte.x01).
Proof.
  apply (frame_travels_between_processes uninit_aa sizeof_example boot
           "cam" 2 2 1 studio
           {| filename := "/dev/shm/buffer-cam"; buffer := 0 |}
           11 (solid Byte.x01)).
  - vm_compute. discriminate.
  - vm_compute. reflexivity.
  - vm_compute. reflexivity.
  - vm_compute. lia.
Defined.

(** ** A new consumer *)


